(** * Alternative implementations of the "somewhere" operator

    A shallow embedding of [lib/somewhere.hpp] (the five strategies, the
    [replicate] combinator and the [netstate] structure) and of the
    [reporter] / [MAIN] functions of [lib/setup.hpp], together with the
    properties the design document states about them. *)

From Stdlib Require Import ZArith QArith Qcanon Qround Bool List Sorted Lia.
From stdpp Require Import base option list numbers gmap fin_maps functions.

Open Scope Z_scope.

(** ** Numeric types

    [real_t] and [times_t] are both [double] in FCPP.  Finite values are
    idealised as exact rationals (no rounding, no signed zero); the special
    values of a double are kept, with their arithmetic and with the rule
    that every ordered comparison with NaN is false.  [size_t] is a 64-bit
    unsigned integer, carried in [Z] with its wrap-around written out;
    [hops_t] and [device_t] are integers. *)

Module Real.

Inductive real_t : Type :=
| NaN
| NegInf
| Fin (q : Qc)
| PosInf.

Definition of_Z (z : Z) : real_t := Fin (Q2Qc (inject_Z z)).

Definition is_nan (x : real_t) : bool :=
  match x with NaN => true | _ => false end.

Definition qlt (a b : Qc) : bool :=
  match (a ?= b)%Qc with Lt => true | _ => false end.

(** [x < y] on doubles. *)
Definition lt (x y : real_t) : bool :=
  match x, y with
  | NaN, _ | _, NaN => false
  | NegInf, NegInf => false
  | NegInf, _ => true
  | Fin _, NegInf => false
  | Fin a, Fin b => qlt a b
  | Fin _, PosInf => true
  | PosInf, _ => false
  end.

(** [x > y] on doubles. *)
Definition gt (x y : real_t) : bool := lt y x.

Definition neg (x : real_t) : real_t :=
  match x with
  | NaN => NaN
  | NegInf => PosInf
  | Fin q => Fin (- q)%Qc
  | PosInf => NegInf
  end.

(** [x - y] on doubles: the difference of two infinities of one sign is NaN. *)
Definition sub (x y : real_t) : real_t :=
  match x, y with
  | NaN, _ | _, NaN => NaN
  | NegInf, NegInf => NaN
  | PosInf, PosInf => NaN
  | NegInf, _ => NegInf
  | PosInf, _ => PosInf
  | Fin _, NegInf => PosInf
  | Fin _, PosInf => NegInf
  | Fin a, Fin b => Fin (a - b)%Qc
  end.

(** [x / y] on doubles: a non-zero finite value over zero is an infinity,
    zero over zero and infinity over infinity are NaN, a finite value over
    an infinity is zero. *)
Definition div (x y : real_t) : real_t :=
  match x, y with
  | NaN, _ | _, NaN => NaN
  | (NegInf | PosInf), (NegInf | PosInf) => NaN
  | Fin _, (NegInf | PosInf) => Fin 0%Qc
  | PosInf, Fin b => if qlt b 0%Qc then NegInf else PosInf
  | NegInf, Fin b => if qlt b 0%Qc then PosInf else NegInf
  | Fin a, Fin b =>
      if qlt b 0%Qc || qlt 0%Qc b then Fin (a / b)%Qc
      else if qlt 0%Qc a then PosInf
      else if qlt a 0%Qc then NegInf
      else NaN
  end.

End Real.

Export Real (real_t, NaN, NegInf, Fin, PosInf).

Definition times_t : Type := real_t.
Definition hops_t : Type := Z.
Definition device_t : Type := N.
Definition size_t : Type := Z.

(** The macro [INF] of FCPP. *)
Definition INF : real_t := PosInf.

Module Size.

Definition modulus : Z := 2 ^ 64.

Definition wrap (z : Z) : size_t := z mod modulus.

(** Unsigned subtraction. *)
Definition sub (a b : size_t) : size_t := wrap (a - b).

Definition in_range (z : Z) : bool := (0 <=? z) && (z <? modulus).

(** Conversion of a [size_t] to [double]. *)
Definition to_real (z : size_t) : real_t := Real.of_Z z.

(** Conversion of a [double] to [size_t]: the fractional part is discarded;
    the conversion is undefined ([None]) when the truncated value is not a
    [size_t], in particular for NaN and the infinities. *)
Definition of_real (x : real_t) : option size_t :=
  match x with
  | Fin q =>
      let z := Z.quot (Qnum (this q)) (Zpos (Qden (this q))) in
      if in_range z then Some z else None
  | _ => None
  end.

End Size.

(** ** Tuples [tuple<times_t, bool>]

    Tuples compare lexicographically, [false < true]. *)

Definition entry : Type := times_t * bool.

Definition bool_lt (a b : bool) : bool := negb a && b.

Definition tuple_lt (a b : entry) : bool :=
  Real.lt (fst a) (fst b) ||
  (negb (Real.lt (fst b) (fst a)) && bool_lt (snd a) (snd b)).

(** [std::max] and [std::min] for a comparison [lt]: the second argument
    only when it is strictly on the side asked for. *)
Definition std_max {A : Type} (lt : A → A → bool) (a b : A) : A :=
  if lt a b then b else a.


(** The maximum of two tuples, pointwise under [fcpp::max]. *)
Definition tuple_max : entry → entry → entry := std_max tuple_lt.

(** ** Fields

    Modelled from the spec: the FCPP type [field<T>] and its helpers
    [details::self], [details::get_vals], [fcpp::max] and [fold_hood] are
    library code outside this repository's files.  A field is a default
    value together with finitely many exceptions indexed by device; a
    pointwise operation acts on the defaults and on every device that is an
    exception on either side. *)

Record field (A : Type) : Type := Field {
  fdef : A;
  fexc : gmap N A
}.
Arguments Field {A} _ _.
Arguments fdef {A} _.
Arguments fexc {A} _.

Section Fields.
Context {A : Type}.

(** [details::self(f, id)], read access. *)
Definition self (f : field A) (id : device_t) : A :=
  default (fdef f) (fexc f !! id).

(** [details::self(f, id) = v], write access. *)
Definition self_set (f : field A) (id : device_t) (v : A) : field A :=
  Field (fdef f) (<[id := v]> (fexc f)).

(** [details::get_vals(f)]: the default followed by the exceptions. *)
Definition get_vals (f : field A) : list A :=
  fdef f :: (map_to_list (fexc f)).*2.

Definition map_hood2 (op : A → A → A) (x y : field A) : field A :=
  Field (op (fdef x) (fdef y))
        (merge (λ a b, match a, b with
                       | None, None => None
                       | _, _ => Some (op (default (fdef x) a) (default (fdef y) b))
                       end) (fexc x) (fexc y)).

(** [fold_hood(CALL, op, n)]: the neighbourhood of a device is never
    empty (it contains the device itself), so the field restricted to it
    is given as a first value and the remaining ones. *)
Definition fold_hood (op : A → A → A) (n0 : A) (n : list A) : A :=
  fold_left op n n0.
End Fields.

(** ** [struct netstate] *)

Module netstate.

Record t : Type := Make { data : field entry }.

(** Default constructor [netstate()]. *)
Definition new : t := Make (Field (Real.neg INF, false) ∅).

(** [void update(device_t id, times_t time, bool val)] *)
Definition update (s : t) (id : device_t) (time : times_t) (val : bool) : t :=
  Make (self_set (data s) id (time, val)).

(** [bool value(times_t threshold) const] *)
Definition value (s : t) (threshold : times_t) : bool :=
  existsb (λ e : entry, Real.gt (fst e) threshold && snd e) (get_vals (data s)).

(** [static netstate max(netstate const& x, netstate const& y)] *)
Definition max (x y : t) : t :=
  Make (map_hood2 tuple_max (data x) (data y)).

(** The entry a netstate holds for a device. *)
Definition lookup (s : t) (id : device_t) : entry := self (data s) id.

(** Every timestamp of the netstate is a time: none is NaN. *)
Definition timed (s : t) : bool :=
  forallb (λ e : entry, negb (Real.is_nan (fst e))) (get_vals (data s)).

End netstate.

(** ** The node

    The coordination primitives of the FCPP library ([abf_hops],
    [wave_election], [shared_clock], [spawn], [logic::EP], [nbr]) are
    outside this repository's files.  They are taken as parameters: the
    values they yield at this device in this round, which depend on what the
    neighbours sent, and the bytes each of them adds to the outgoing
    message. *)

Inductive call : Type :=
| RectangleWalk
| AbfHops
| WaveElection
| SharedClock
| Spawn (propagated : list size_t)
| NbrNetstate (s : netstate.t).

Definition election_key : Type := bool * device_t.

Record externals : Type := {
  (** [abf_hops(CALL, f)]: hop distance to the closest source. *)
  abf_hops : bool → hops_t;
  (** [wave_election(CALL, key)]: the key currently elected. *)
  wave_election : election_key → election_key;
  (** [shared_clock(CALL)] *)
  shared_clock : times_t;
  (** the keys [spawn] runs a process for, given the key of the device's
      own key set, in the order the resulting map is iterated *)
  spawn_keys : size_t → list size_t;
  (** [logic::EP(CALL, f)] within the process of a given key *)
  EP : size_t → bool → bool;
  (** [nbr(CALL, init, ...)] on netstates: the old values of the
      neighbourhood, in the order [fold_hood] visits them *)
  nbr_netstate : netstate.t → netstate.t * list netstate.t;
  (** size of what a primitive exports *)
  bytes : call → size_t
}.

Inductive strategy : Type :=
| Oracle | Baseline | KnowledgeFree | Replicated | Fastest.

Global Instance strategy_eq_dec : EqDecision strategy.
Proof. solve_decision. Defined.

Inductive color : Type := RED | GREEN.
Inductive shape : Type := star | sphere.

(** The node storage, [main_s]; [node_size] is a double that holds 10 or 20. *)
Record storage_t : Type := Storage {
  value : strategy → bool;
  error : strategy → bool;
  msg_size : strategy → size_t;
  node_color : color;
  node_shape : shape;
  node_size : Z
}.

Record node : Type := Node {
  uid : device_t;
  current_time : times_t;
  (** [node.net.storage(hops{})], as a [hops_t] *)
  net_hops : hops_t;
  cur_msg_size : size_t;
  storage : storage_t;
  ext : externals
}.

Definition with_storage (f : storage_t → storage_t) (nd : node) : node :=
  Node (uid nd) (current_time nd) (net_hops nd) (cur_msg_size nd)
       (f (storage nd)) (ext nd).

Definition set_value (F : strategy) (v : bool) : node → node :=
  with_storage (λ s, Storage (<[F := v]> (value s)) (error s) (msg_size s)
                             (node_color s) (node_shape s) (node_size s)).

Definition set_error (F : strategy) (v : bool) : node → node :=
  with_storage (λ s, Storage (value s) (<[F := v]> (error s)) (msg_size s)
                             (node_color s) (node_shape s) (node_size s)).

Definition set_msg_size (F : strategy) (v : size_t) : node → node :=
  with_storage (λ s, Storage (value s) (error s) (<[F := v]> (msg_size s))
                             (node_color s) (node_shape s) (node_size s)).

Definition set_node_color (c : color) : node → node :=
  with_storage (λ s, Storage (value s) (error s) (msg_size s)
                             c (node_shape s) (node_size s)).

Definition set_node_shape (c : shape) : node → node :=
  with_storage (λ s, Storage (value s) (error s) (msg_size s)
                             (node_color s) c (node_size s)).

Definition set_node_size (z : Z) : node → node :=
  with_storage (λ s, Storage (value s) (error s) (msg_size s)
                             (node_color s) (node_shape s) z).

(** A primitive adds what it exports to the outgoing message. *)
Definition exported (c : call) (nd : node) : node :=
  Node (uid nd) (current_time nd) (net_hops nd)
       (Size.wrap (cur_msg_size nd + bytes (ext nd) c))
       (storage nd) (ext nd).

(** ** Aggregate functions

    A function taking [ARGS] runs on the node: it reads and updates it and
    yields a value, or is undefined ([None]). *)

Definition M (A : Type) : Type := node → option (A * node).

Global Instance M_ret : MRet M := λ A a nd, Some (a, nd).
Global Instance M_bind : MBind M := λ A B k m nd,
  match m nd with
  | Some (a, nd') => k a nd'
  | None => None
  end.

Definition get {A} (f : node → A) : M A := λ nd, Some (f nd, nd).
Definition modify (f : node → node) : M unit := λ nd, Some (tt, f nd).
Definition undefined_or {A} (o : option A) : M A := λ nd,
  match o with Some a => Some (a, nd) | None => None end.
Definition export (c : call) : M unit := modify (exported c).

(** The result of a run, when it is defined. *)
Definition result {A} (r : option (A * node)) : option A := fst <$> r.

(** *** [replicate] *)

(** Modelled from the spec: [spawn] is FCPP library code outside this
    repository's files, the ReplicaSpawner of the design document ("per-key
    persistent instance, active while caller asserts alive").
    [spawn(CALL, process, {key})] runs the process of every visible key;
    every key gets the first component of its process in the resulting map,
    and the keys whose second component is true are propagated to the
    neighbours. *)
Definition spawn {R} (process : size_t → R * bool) (key : size_t)
  : M (list (size_t * R)) :=
  keys ← get (λ nd, spawn_keys (ext nd) key);
  export (Spawn (filter (λ k, snd (process k) = true) keys));;
  mret (map (λ k, (k, fst (process k))) keys).

(** [res[now]]: the value of the key, [bool()] when the key is absent. *)
Definition at_key (res : list (size_t * bool)) (k : size_t) : bool :=
  match find (λ x, fst x =? k) res with
  | Some x => snd x
  | None => false
  end.

(** [for (auto x : res) if (x.first > now - n) now = min(now, x.first);] *)
Definition oldest (n : size_t) (res : list (size_t * bool)) (now : size_t)
  : size_t :=
  fold_left (λ now x, if Size.sub now n <? fst x then Z.min now (fst x) else now)
            res now.

(** [size_t now = shared_clock(CALL) / t;] *)
Definition generation (clock t : times_t) : option size_t :=
  Size.of_real (Real.div clock t).

(** [fun_] gives the value of the replicated code within the process of a key. *)
Definition replicate (fun_ : size_t → bool) (n : size_t) (t : times_t)
  : M bool :=
  clock ← get (λ nd, shared_clock (ext nd));
  export SharedClock;;
  now ← undefined_or (generation clock t);
  res ← spawn (λ i, (fun_ i, Size.sub now n <? i)) now;
  mret (at_key res (oldest n res now)).
(** [replicate_t] *)
Definition replicate_t : list call := [Spawn []; SharedClock].

(** ** The strategies, [namespace somewhere] *)

Module somewhere.

(** [struct oracle] *)
Definition oracle (_ val : bool) : M bool := mret val.
Definition oracle_export_t : list call := [].

(** [struct baseline] *)
Definition baseline (f : bool) (diameter : hops_t) : M bool :=
  d ← get (λ nd, abf_hops (ext nd) f);
  export AbfHops;;
  mret (d <? diameter).

(** [struct knowledge_free] *)
Definition knowledge_free (f : bool) : M bool :=
  id ← get uid;
  leader ← get (λ nd, wave_election (ext nd) (negb f, id));
  export WaveElection;;
  mret (negb (fst leader)).

(** [diameter / infospeed / (replicas-1)] *)
Definition replica_interval (diameter : hops_t) (infospeed : real_t)
    (replicas : size_t) : times_t :=
  Real.div (Real.div (Real.of_Z diameter) infospeed)
           (Size.to_real (Size.sub replicas 1)).

(** [struct replicated] *)
Definition replicated (f : bool) (diameter : hops_t) (infospeed : real_t)
    (replicas : size_t) : M bool :=
  e ← get ext;
  replicate (λ i, EP e i f) replicas (replica_interval diameter infospeed replicas).

(** [node.current_time() - diameter / infospeed] *)
Definition window (now : times_t) (diameter : hops_t) (infospeed : real_t)
  : times_t :=
  Real.sub now (Real.div (Real.of_Z diameter) infospeed).

(** [struct fastest] *)
Definition fastest (f : bool) (diameter : hops_t) (infospeed : real_t) : M bool :=
  n ← get (λ nd, nbr_netstate (ext nd) netstate.new);
  id ← get uid;
  now ← get current_time;
  let s := fold_hood netstate.max (fst n) (snd n) in
  let s := netstate.update s id now f in
  export (NbrNetstate s);;
  mret (netstate.value s (window now diameter infospeed)).

End somewhere.

(** ** [reporter] and [MAIN] *)

Definition true_time : size_t := 100.
Definition false_time : size_t := 2 * true_time.

(** [GEN(F, ...Ts) void reporter(ARGS, F&& fun, Ts&&... xs)] *)
Definition reporter (F : strategy) (fun_ : M bool) : M unit :=
  msg_base ← get cur_msg_size;
  v ← fun_;
  modify (set_value F v);;
  now_size ← get cur_msg_size;
  modify (set_msg_size F (Size.sub now_size msg_base));;
  mine ← get (λ nd, value (storage nd) F);
  truth ← get (λ nd, value (storage nd) Oracle);
  modify (set_error F (xorb mine truth)).

(** [MAIN()] *)
Definition main : M unit :=
  diameter ← get net_hops;
  let infospeed := Real.of_Z 70 in
  let replicas := 3 in
  export RectangleWalk;;
  now ← get current_time;
  id ← get uid;
  let somewhere_f :=
    Real.gt now (Size.to_real true_time) && Real.lt now (Size.to_real false_time) in
  let formula := (id =? 0)%N && somewhere_f in
  reporter Oracle (somewhere.oracle formula somewhere_f);;
  reporter Baseline (somewhere.baseline formula diameter);;
  reporter KnowledgeFree (somewhere.knowledge_free formula);;
  reporter Replicated (somewhere.replicated formula diameter infospeed replicas);;
  reporter Fastest (somewhere.fastest formula diameter infospeed);;
  modify (set_node_size (if formula then 20 else 10));;
  r ← get (λ nd, value (storage nd) Replicated);
  modify (set_node_color (if (r : bool) then RED else GREEN));;
  h ← get (λ nd, value (storage nd) Baseline);
  modify (set_node_shape (if (h : bool) then star else sphere)).

(** ** Leader election

    Modelled from the spec: [wave_election] is library code outside this
    repository's files; the design document gives its contract,
    "LeaderElection(key) -> key: network-wide minimum, totally-ordered
    keys", reached on a stable topology.  The keys are
    [tuple<bool, device_t>], compared lexicographically. *)





(** ** Replicas as the design document words them

    A generation [i] is alive at the generation [now] of the device while
    [i >= now - n + 1]; the replicator reports the result of the oldest
    alive generation among the visible ones. *)

Definition spec_alive (n now i : Z) : bool := now - n + 1 <=? i.

Definition spec_oldest_alive (n : Z) (res : list (Z * bool)) (now : Z) : Z :=
  fold_left (λ m x, if spec_alive n now (fst x) && (fst x <? m) then fst x else m)
            res now.

Definition spec_replicate (n : Z) (res : list (Z * bool)) (now : Z) : bool :=
  at_key res (spec_oldest_alive n res now).

(** ** Sample rounds *)

Definition sample_storage : storage_t :=
  Storage (λ _, false) (λ _, false) (λ _, 0) GREEN sphere 0.

(** A device at generation 10 (shared clock 5/7, interval 1/14) that sees
    the generations 10, 8 and 6, in this order; only generation 6 has
    witnessed the trigger. *)
Definition lagging_externals : externals := {|
  abf_hops := λ _, 3;
  wave_election := λ k, k;
  shared_clock := Fin (Q2Qc (5 # 7));
  spawn_keys := λ _, [10; 8; 6];
  EP := λ k _, k =? 6;
  nbr_netstate := λ init,
    (init, [netstate.update netstate.new 4%N (Fin (Q2Qc (3 # 1))) true]);
  bytes := λ _, 4
|}.

Definition lagging_node : node :=
  Node 0%N (Fin (Q2Qc (3 # 1))) 10 0 sample_storage lagging_externals.

(** The call [MAIN] makes for a strategy, on the round of the node [nd]. *)
Definition main_call (F : strategy) (nd : node) : M bool :=
  let now := current_time nd in
  let somewhere_f :=
    Real.gt now (Size.to_real true_time) && Real.lt now (Size.to_real false_time) in
  let formula := (uid nd =? 0)%N && somewhere_f in
  match F with
  | Oracle => somewhere.oracle formula somewhere_f
  | Baseline => somewhere.baseline formula (net_hops nd)
  | KnowledgeFree => somewhere.knowledge_free formula
  | Replicated => somewhere.replicated formula (net_hops nd) (Real.of_Z 70) 3
  | Fastest => somewhere.fastest formula (net_hops nd) (Real.of_Z 70)
  end.

(** Two nodes in the same round of the same device: they differ at most
    in the storage and in the size of the outgoing message. *)
Definition same_round (nd nd' : node) : Prop :=
  uid nd' = uid nd ∧ current_time nd' = current_time nd ∧
  net_hops nd' = net_hops nd ∧ ext nd' = ext nd.

(** The fields of the storage that belong to a strategy. *)
Definition report_of (F : strategy) (nd : node) : bool * bool * size_t :=
  (value (storage nd) F, error (storage nd) F, msg_size (storage nd) F).

(** The fields of the storage that belong to no strategy. *)
Definition display_of (nd : node) : color * shape * Z :=
  (node_color (storage nd), node_shape (storage nd), node_size (storage nd)).

(** The generation of the replicated strategy in the round of a node. *)
Definition main_generation (nd : node) : option size_t :=
  generation (shared_clock (ext nd))
             (somewhere.replica_interval (net_hops nd) (Real.of_Z 70) 3).

(** The updates a netstate has received, applied to a fresh one. *)
Definition updated (us : list (device_t * times_t * bool)) : netstate.t :=
  fold_left (λ s u, netstate.update s (fst (fst u)) (snd (fst u)) (snd u))
            us netstate.new.

Definition timed_entry (e : entry) : Prop := Real.is_nan (fst e) = false.

(** A device of a component of four in which the devices 2 and 7 are
    triggered; the election has converged to the key of device 2. *)
Definition elected_externals : externals := {|
  abf_hops := λ _, 1;
  wave_election := λ _, (false, 2%N);
  shared_clock := Fin (Q2Qc (3 # 1));
  spawn_keys := λ now, [now];
  EP := λ _ f, f;
  nbr_netstate := λ init, (init, []);
  bytes := λ _, 8
|}.

Definition elected_node : node :=
  Node 5%N (Fin (Q2Qc (3 # 1))) 10 0 sample_storage elected_externals.


(** Three netstates: two that each know one device, and a fresh one. *)
Definition sample_x : netstate.t :=
  netstate.update netstate.new 1%N (Fin (Q2Qc (3 # 1))) true.
Definition sample_y : netstate.t :=
  netstate.update netstate.new 2%N (Fin (Q2Qc (5 # 2))) false.
Definition sample_z : netstate.t := netstate.new.

(** What one reporter call of [MAIN] for the strategy [F] does to the node
    [n], in the round that started with [nd0]: it stores the value the
    strategy yields on [nd0], its error against the oracle and the bytes it
    added, and leaves every other field of the storage. *)
Definition reported (nd0 : node) (F : strategy) (n n' : node) : Prop :=
  reporter F (main_call F nd0) n = Some (tt, n') ∧
  same_round nd0 n' ∧
  result (main_call F nd0 nd0) = Some (value (storage n') F) ∧
  error (storage n') F =
    xorb (value (storage n') F)
         (if decide (F = Oracle) then value (storage n') F
          else value (storage n) Oracle) ∧
  msg_size (storage n') F = Size.sub (cur_msg_size n') (cur_msg_size n) ∧
  (∀ G, G ≠ F → report_of G n' = report_of G n) ∧
  display_of n' = display_of n.

(** The local trigger and the ground truth of [MAIN] in the round of a node. *)
Definition main_somewhere_f (nd : node) : bool :=
  Real.gt (current_time nd) (Size.to_real true_time) &&
  Real.lt (current_time nd) (Size.to_real false_time).

Definition main_formula (nd : node) : bool :=
  (uid nd =? 0)%N && main_somewhere_f nd.

(** * Properties *)

(** ** The order on doubles *)

Lemma qlt_spec (a b : Qc) : Real.qlt a b = true ↔ (a < b)%Qc.
Proof.
  unfold Real.qlt. rewrite Qclt_alt.
  destruct (a ?= b)%Qc; split; congruence.
Qed.

Lemma qlt_irrefl (a : Qc) : Real.qlt a a = false.
Proof.
  apply not_true_iff_false. rewrite qlt_spec.
  intros H. by apply (Qclt_not_eq a a).
Qed.

Lemma qlt_trans (a b c : Qc) :
  Real.qlt a b = true → Real.qlt b c = true → Real.qlt a c = true.
Proof. rewrite !qlt_spec. apply Qclt_trans. Qed.

Lemma qlt_total (a b : Qc) :
  Real.qlt a b = false → Real.qlt b a = false → a = b.
Proof.
  intros Hab Hba. apply not_true_iff_false in Hab, Hba.
  rewrite qlt_spec in Hab, Hba.
  apply Qcle_antisym; apply Qcnot_lt_le; assumption.
Qed.

Lemma real_lt_irrefl (x : real_t) : Real.lt x x = false.
Proof. destruct x; simpl; auto using qlt_irrefl. Qed.

Lemma real_lt_trans (x y z : real_t) :
  Real.lt x y = true → Real.lt y z = true → Real.lt x z = true.
Proof.
  destruct x, y, z; simpl; try congruence. apply qlt_trans.
Qed.

Lemma real_lt_total (x y : real_t) :
  Real.is_nan x = false → Real.is_nan y = false →
  Real.lt x y = false → Real.lt y x = false → x = y.
Proof.
  destruct x, y; simpl; try congruence.
  intros _ _ Hab Hba. f_equal. by apply qlt_total.
Qed.

(** ** [std::max] for a strict order that is total on a domain *)

Section Maximum.
Context {A : Type} (lt : A → A → bool) (dom : A → Prop).
Hypothesis lt_irrefl : ∀ a, lt a a = false.
Hypothesis lt_trans :
  ∀ a b c, dom a → dom b → dom c → lt a b = true → lt b c = true → lt a c = true.
Hypothesis lt_total :
  ∀ a b, dom a → dom b → lt a b = false → lt b a = false → a = b.

Lemma std_max_idem a : std_max lt a a = a.
Proof. unfold std_max. by rewrite lt_irrefl. Qed.

Lemma std_max_dom a b : dom a → dom b → dom (std_max lt a b).
Proof. unfold std_max. by destruct (lt a b). Qed.

Lemma std_max_comm a b : dom a → dom b → std_max lt a b = std_max lt b a.
Proof.
  intros Ha Hb. unfold std_max.
  destruct (lt a b) eqn:Hab, (lt b a) eqn:Hba; auto.
  pose proof (lt_trans _ _ _ Ha Hb Ha Hab Hba) as Haa.
  rewrite lt_irrefl in Haa. discriminate.
Qed.

Lemma std_max_assoc a b c :
  dom a → dom b → dom c →
  std_max lt (std_max lt a b) c = std_max lt a (std_max lt b c).
Proof.
  intros Ha Hb Hc. unfold std_max.
  destruct (lt a b) eqn:Hab, (lt b c) eqn:Hbc; rewrite ?Hab, ?Hbc; auto.
  - by rewrite (lt_trans _ _ _ Ha Hb Hc Hab Hbc).
  - destruct (lt a c) eqn:Hac; auto.
    destruct (lt b a) eqn:Hba.
    + pose proof (lt_trans _ _ _ Hb Ha Hc Hba Hac) as Hbc'. congruence.
    + rewrite (lt_total a b Ha Hb Hab Hba) in Hac. congruence.
Qed.
End Maximum.

(** ** The order on tuples *)

Lemma tuple_lt_irrefl (a : entry) : tuple_lt a a = false.
Proof.
  unfold tuple_lt, bool_lt. rewrite real_lt_irrefl. by destruct (snd a).
Qed.

Lemma tuple_lt_trans (a b c : entry) :
  timed_entry a → timed_entry b → timed_entry c →
  tuple_lt a b = true → tuple_lt b c = true → tuple_lt a c = true.
Proof.
  destruct a as [ta va], b as [tb vb], c as [tc vc].
  unfold timed_entry, tuple_lt, bool_lt; simpl. intros Ha Hb Hc.
  destruct (Real.lt ta tb) eqn:Hab, (Real.lt tb tc) eqn:Hbc; simpl.
  - by rewrite (real_lt_trans _ _ _ Hab Hbc).
  - destruct (Real.lt tc tb) eqn:Hcb; simpl; [done|].
    rewrite <- (real_lt_total _ _ Hb Hc Hbc Hcb), Hab. done.
  - destruct (Real.lt tb ta) eqn:Hba; simpl; [done|].
    rewrite (real_lt_total _ _ Ha Hb Hab Hba), Hbc. done.
  - destruct (Real.lt tb ta) eqn:Hba, (Real.lt tc tb) eqn:Hcb; simpl; try done.
    rewrite (real_lt_total _ _ Ha Hb Hab Hba), Hbc, Hcb; simpl.
    destruct va, vb, vc; simpl in *; done.
Qed.

Lemma tuple_lt_total (a b : entry) :
  timed_entry a → timed_entry b →
  tuple_lt a b = false → tuple_lt b a = false → a = b.
Proof.
  destruct a as [ta va], b as [tb vb]. unfold timed_entry, tuple_lt, bool_lt; simpl.
  intros Ha Hb.
  destruct (Real.lt ta tb) eqn:Hab, (Real.lt tb ta) eqn:Hba; simpl; try done.
  rewrite (real_lt_total _ _ Ha Hb Hab Hba).
  destruct va, vb; simpl; congruence.
Qed.

Lemma tuple_max_timed (a b : entry) :
  timed_entry a → timed_entry b → timed_entry (tuple_max a b).
Proof. apply (std_max_dom tuple_lt timed_entry). Qed.

Lemma tuple_max_idem (a : entry) : tuple_max a a = a.
Proof. apply std_max_idem, tuple_lt_irrefl. Qed.

Lemma tuple_max_comm (a b : entry) :
  timed_entry a → timed_entry b → tuple_max a b = tuple_max b a.
Proof.
  apply (std_max_comm tuple_lt timed_entry tuple_lt_irrefl tuple_lt_trans
                      tuple_lt_total).
Qed.

Lemma tuple_max_assoc (a b c : entry) :
  timed_entry a → timed_entry b → timed_entry c →
  tuple_max (tuple_max a b) c = tuple_max a (tuple_max b c).
Proof.
  apply (std_max_assoc tuple_lt timed_entry tuple_lt_irrefl tuple_lt_trans
                       tuple_lt_total).
Qed.

(** ** Fields *)

Section FieldFacts.
Context {A : Type}.
Implicit Types (x y z : field A) (op : A → A → A).

Lemma field_eq x y :
  fdef x = fdef y → (∀ id, fexc x !! id = fexc y !! id) → x = y.
Proof.
  destruct x as [dx ex], y as [dy ey]; simpl. intros -> H.
  f_equal. by apply map_eq.
Qed.

Lemma fdef_map_hood2 op x y :
  fdef (map_hood2 op x y) = op (fdef x) (fdef y).
Proof. reflexivity. Qed.

Lemma fexc_map_hood2 op x y id :
  fexc (map_hood2 op x y) !! id =
  match fexc x !! id, fexc y !! id with
  | None, None => None
  | _, _ => Some (op (self x id) (self y id))
  end.
Proof.
  unfold map_hood2, self; simpl. rewrite lookup_merge.
  by destruct (fexc x !! id), (fexc y !! id).
Qed.

(** A pointwise operation acts device by device. *)
Lemma self_map_hood2 op x y id :
  self (map_hood2 op x y) id = op (self x id) (self y id).
Proof.
  unfold self at 1. rewrite fexc_map_hood2. unfold self.
  by destruct (fexc x !! id), (fexc y !! id).
Qed.

Lemma self_self_set x id v id' :
  self (self_set x id v) id' = if decide (id = id') then v else self x id'.
Proof.
  unfold self, self_set; simpl. rewrite lookup_insert.
  by repeat case_decide.
Qed.

Lemma elem_of_get_vals x (a : A) :
  a ∈ get_vals x ↔ a = fdef x ∨ ∃ id, fexc x !! id = Some a.
Proof.
  unfold get_vals. rewrite elem_of_cons, list_elem_of_fmap.
  split; (intros [?|H]; [by left|right]).
  - destruct H as ([id a'] & -> & H). exists id.
    by apply elem_of_map_to_list in H.
  - destruct H as [id H]. exists (id, a). split; [done|].
    by apply elem_of_map_to_list.
Qed.

Lemma self_in_get_vals x id : self x id ∈ get_vals x.
Proof.
  apply elem_of_get_vals. unfold self.
  destruct (fexc x !! id) eqn:E; simpl; eauto.
Qed.
End FieldFacts.

(** ** Netstates *)

Lemma netstate_eq (x y : netstate.t) :
  fdef (netstate.data x) = fdef (netstate.data y) →
  (∀ id, fexc (netstate.data x) !! id = fexc (netstate.data y) !! id) →
  x = y.
Proof.
  destruct x as [dx], y as [dy]; simpl. intros H1 H2.
  f_equal. by apply field_eq.
Qed.

Lemma timed_spec (s : netstate.t) :
  netstate.timed s ↔
  timed_entry (fdef (netstate.data s)) ∧
  ∀ id e, fexc (netstate.data s) !! id = Some e → timed_entry e.
Proof.
  unfold netstate.timed, timed_entry.
  rewrite forallb_True, Forall_forall. split.
  - intros H. split.
    + apply negb_true_iff, Is_true_true, H, list_elem_of_In, elem_of_get_vals.
      by left.
    + intros id e He.
      apply negb_true_iff, Is_true_true, H, list_elem_of_In, elem_of_get_vals.
      eauto.
  - intros [Hd He] e [->|[id Hid]]%list_elem_of_In%elem_of_get_vals;
      apply Is_true_true, negb_true_iff; eauto.
Qed.

Lemma timed_self (x : netstate.t) id :
  netstate.timed x → timed_entry (self (netstate.data x) id).
Proof.
  intros [Hd He]%timed_spec. unfold self.
  destruct (fexc (netstate.data x) !! id) eqn:E; simpl; [by eapply He | done].
Qed.

Lemma netstate_lookup_max (x y : netstate.t) id :
  netstate.lookup (netstate.max x y) id =
  tuple_max (netstate.lookup x id) (netstate.lookup y id).
Proof. apply self_map_hood2. Qed.

Lemma netstate_lookup_update (s : netstate.t) id time val id' :
  netstate.lookup (netstate.update s id time val) id' =
  if decide (id = id') then (time, val) else netstate.lookup s id'.
Proof. apply self_self_set. Qed.

Lemma netstate_lookup_new id : netstate.lookup netstate.new id = (NegInf, false).
Proof. reflexivity. Qed.

Lemma netstate_timed_new : netstate.timed netstate.new.
Proof. reflexivity. Qed.

Lemma netstate_timed_update (s : netstate.t) id time val :
  Real.is_nan time = false → netstate.timed s →
  netstate.timed (netstate.update s id time val).
Proof.
  intros Ht [Hd He]%timed_spec. apply timed_spec.
  split; [done|]. intros id' e; simpl.
  rewrite lookup_insert. case_decide.
  - by intros [= <-].
  - apply He.
Qed.

Lemma netstate_timed_max (x y : netstate.t) :
  netstate.timed x → netstate.timed y → netstate.timed (netstate.max x y).
Proof.
  intros Hx Hy. apply timed_spec. split.
  - apply tuple_max_timed; [by apply timed_spec in Hx as [? _]
                           | by apply timed_spec in Hy as [? _]].
  - intros id e. unfold netstate.max, netstate.data at 1.
    rewrite fexc_map_hood2. intros H.
    assert (e = tuple_max (self (netstate.data x) id) (self (netstate.data y) id))
      as ->.
    { repeat case_match; by simplify_eq. }
    apply tuple_max_timed; by apply timed_self.
Qed.

Lemma netstate_max_idem (x : netstate.t) : netstate.max x x = x.
Proof.
  apply netstate_eq; unfold netstate.max, netstate.data at 1.
  - apply tuple_max_idem.
  - intros id. rewrite fexc_map_hood2, tuple_max_idem. unfold self.
    by repeat case_match.
Qed.

Lemma netstate_max_comm (x y : netstate.t) :
  netstate.timed x → netstate.timed y → netstate.max x y = netstate.max y x.
Proof.
  intros Hx Hy. apply netstate_eq; unfold netstate.max; cbn [netstate.data].
  - apply tuple_max_comm; [by apply timed_spec in Hx as [? _]
                          | by apply timed_spec in Hy as [? _]].
  - intros id. rewrite !fexc_map_hood2.
    rewrite (tuple_max_comm (self _ id) (self _ id)) by by apply timed_self.
    by repeat case_match.
Qed.

Lemma netstate_max_assoc (x y z : netstate.t) :
  netstate.timed x → netstate.timed y → netstate.timed z →
  netstate.max (netstate.max x y) z = netstate.max x (netstate.max y z).
Proof.
  intros Hx Hy Hz. apply netstate_eq; unfold netstate.max; cbn [netstate.data].
  - rewrite !fdef_map_hood2.
    apply tuple_max_assoc; [by apply timed_spec in Hx as [? _]
                           | by apply timed_spec in Hy as [? _]
                           | by apply timed_spec in Hz as [? _]].
  - intros id. rewrite !fexc_map_hood2, !self_map_hood2.
    rewrite tuple_max_assoc by by apply timed_self.
    by repeat case_match.
Qed.

Lemma lookup_updated_unseen us id :
  id ∉ (fst ∘ fst) <$> us → netstate.lookup (updated us) id = (NegInf, false).
Proof.
  unfold updated. generalize netstate.new, (netstate_lookup_new id).
  induction us as [|[[d t] v] us IH]; intros s Hs Hid; simpl; [done|].
  rewrite fmap_cons, not_elem_of_cons in Hid. destruct Hid as [Hne Hid].
  apply IH; [|done]. rewrite netstate_lookup_update.
  simpl in Hne. by case_decide.
Qed.

(** C2. The merge of netstates is commutative, associative and idempotent,
    and a fresh netstate, also after any updates, holds (-INF, false) for
    every device that was not updated.  Timestamps are times: NaN, which no
    clock yields and on which [<] is not an order, is not one of them. *)
Theorem netstate_max_semilattice (x y z : netstate.t) :
  netstate.timed x → netstate.timed y → netstate.timed z →
  netstate.max x y = netstate.max y x ∧
  netstate.max (netstate.max x y) z = netstate.max x (netstate.max y z) ∧
  netstate.max x x = x ∧
  (∀ id, netstate.lookup netstate.new id = (Real.neg INF, false)) ∧
  (∀ us id, id ∉ (fst ∘ fst) <$> us →
            netstate.lookup (updated us) id = (NegInf, false)).
Proof.
  intros Hx Hy Hz. split_and!.
  - by apply netstate_max_comm.
  - by apply netstate_max_assoc.
  - apply netstate_max_idem.
  - apply netstate_lookup_new.
  - apply lookup_updated_unseen.
Qed.

(** ** The fastest strategy *)

Lemma lookup_fold_hood_max (n0 : netstate.t) (n : list netstate.t) id :
  netstate.lookup (fold_hood netstate.max n0 n) id =
  fold_left tuple_max (map (λ x, netstate.lookup x id) n) (netstate.lookup n0 id).
Proof.
  unfold fold_hood. revert n0.
  induction n as [|x n IH]; intros n0; simpl; [done|].
  by rewrite IH, netstate_lookup_max.
Qed.

Lemma netstate_value_spec (s : netstate.t) threshold :
  netstate.value s threshold = true ↔
  ∃ e : entry, e ∈ get_vals (netstate.data s) ∧
               Real.gt (fst e) threshold = true ∧ snd e = true.
Proof.
  unfold netstate.value. rewrite existsb_exists.
  split; intros (e & He & H); exists e.
  - apply andb_true_iff in H. split; [by apply list_elem_of_In | done].
  - split; [by apply list_elem_of_In | by apply andb_true_iff].
Qed.

Lemma fastest_run f diameter infospeed nd :
  let n := nbr_netstate (ext nd) netstate.new in
  let s := netstate.update (fold_hood netstate.max (fst n) (snd n))
                           (uid nd) (current_time nd) f in
  somewhere.fastest f diameter infospeed nd =
  Some (netstate.value s (somewhere.window (current_time nd) diameter infospeed),
        exported (NbrNetstate s) nd).
Proof. reflexivity. Qed.

(** C1. The fastest strategy folds the netstates received from the
    neighbourhood with the pointwise maximum, overwrites the entry of its
    own device with (current time, local trigger), sends the outcome, and
    returns true exactly when some entry of it is true with a timestamp
    above current time - diameter / infospeed. *)
Theorem fastest_three_steps (f : bool) (diameter : hops_t) (infospeed : real_t)
    (nd : node) :
  let n := nbr_netstate (ext nd) netstate.new in
  let merged := fold_hood netstate.max (fst n) (snd n) in
  let s := netstate.update merged (uid nd) (current_time nd) f in
  let threshold :=
    Real.sub (current_time nd) (Real.div (Real.of_Z diameter) infospeed) in
  (∀ id, netstate.lookup merged id =
         fold_left tuple_max (map (λ x, netstate.lookup x id) (snd n))
                   (netstate.lookup (fst n) id)) ∧
  (∀ id, netstate.lookup s id =
         if decide (id = uid nd) then (current_time nd, f)
         else netstate.lookup merged id) ∧
  (∀ id, netstate.lookup s id ∈ get_vals (netstate.data s)) ∧
  ∃ r, somewhere.fastest f diameter infospeed nd =
         Some (r, exported (NbrNetstate s) nd) ∧
       (r = true ↔
        ∃ e : entry, e ∈ get_vals (netstate.data s) ∧
                     Real.gt (fst e) threshold = true ∧ snd e = true).
Proof.
  intros n merged s threshold. split_and!.
  - intros id. apply lookup_fold_hood_max.
  - intros id. unfold s. rewrite netstate_lookup_update.
    by repeat case_decide.
  - intros id. apply self_in_get_vals.
  - eexists. split; [apply fastest_run|]. apply netstate_value_spec.
Qed.

(** ** The oracle *)

(** C7. The oracle returns the supplied ground truth unchanged, whatever
    the local trigger: it leaves the node, and so the outgoing message, as
    it was, and its export list is empty. *)
Theorem oracle_identity (f val : bool) (nd : node) :
  somewhere.oracle f val nd = Some (val, nd) ∧
  result (somewhere.oracle f val nd) = Some val ∧
  somewhere.oracle_export_t = [].
Proof. by split_and!. Qed.

(** ** The knowledge-free strategy *)










Lemma knowledge_free_run f nd :
  somewhere.knowledge_free f nd =
  Some (negb (fst (wave_election (ext nd) (negb f, uid nd))),
        exported WaveElection nd).
Proof. reflexivity. Qed.



(** ** Replica generations *)

Lemma Qc_inv_pos (a : Qc) : (0 < a)%Qc → (0 < / a)%Qc.
Proof.
  unfold Qclt. intros H.
  change (this (/ a)%Qc) with (Qred (/ this a)).
  change (this 0%Qc) with 0%Q in *.
  rewrite Qred_correct. by apply Qinv_lt_0_compat.
Qed.




Lemma qlt_pos (a : Qc) : (0 < a)%Qc → Real.qlt a 0 || Real.qlt 0 a = true.
Proof.
  intros Ha. apply orb_true_iff. right. by apply qlt_spec.
Qed.

Lemma real_div_pos (a b : Qc) :
  (0 < b)%Qc → Real.div (Fin a) (Fin b) = Fin (a / b)%Qc.
Proof. intros Hb. simpl. by rewrite qlt_pos. Qed.

Lemma size_sub_exact (a b : size_t) :
  0 ≤ b ≤ a → a < Size.modulus → Size.sub a b = a - b.
Proof.
  intros Hb Ha. unfold Size.sub, Size.wrap. apply Z.mod_small. lia.
Qed.





(** ** The replicator *)

Lemma replicate_run (fun_ : size_t → bool) n t nd now :
  generation (shared_clock (ext nd)) t = Some now →
  let keys := spawn_keys (ext nd) now in
  let res := map (λ k, (k, fun_ k)) keys in
  replicate fun_ n t nd =
  Some (at_key res (oldest n res now),
        exported (Spawn (filter (λ k, (Size.sub now n <? k) = true) keys))
                 (exported SharedClock nd)).
Proof.
  intros Hgen. unfold replicate, mbind, M_bind, get, export, modify,
    undefined_or; simpl.
  rewrite Hgen. reflexivity.
Qed.

Lemma replicate_undefined (fun_ : size_t → bool) n t nd :
  generation (shared_clock (ext nd)) t = None → replicate fun_ n t nd = None.
Proof.
  intros Hgen. unfold replicate, mbind, M_bind, get, export, modify,
    undefined_or; simpl.
  by rewrite Hgen.
Qed.

(** Below [n] generations the unsigned difference [now - n] wraps around,
    and no key that is itself a generation reached so far exceeds it: the
    loop keeps the generation of the device. *)
Lemma oldest_wrapped n res now :
  0 ≤ now < n → n ≤ Size.modulus →
  Forall (λ x : size_t * bool, fst x ≤ Size.modulus - n + now) res →
  oldest n res now = now.
Proof.
  intros Hnow Hn Hres. unfold oldest.
  induction Hres as [|x res Hx Hres IH]; simpl; [done|].
  assert (Size.sub now n = Size.modulus - n + now) as ->.
  { unfold Size.sub, Size.wrap.
    replace (now - n) with (Size.modulus - n + now + (-1) * Size.modulus) by lia.
    rewrite Z.mod_add by (by compute). apply Z.mod_small. lia. }
  rewrite (proj2 (Z.ltb_ge _ _)) by done. apply IH.
Qed.

(** C3, on a device that lags no neighbour but sees their older
    generations: with 3 replicas at generation 10, the alive generations
    are 8, 9 and 10, and the oldest alive visible one is 8, whose result is
    false; the loop, lowering [now] while it compares with it, goes on to
    generation 6, which is not alive, and reports its result, true. *)
Theorem replicated_reports_dead_generation :
  let res := [(10, false); (8, false); (6, true)] in
  generation (shared_clock (ext lagging_node))
             (somewhere.replica_interval 10 (Real.of_Z 70) 3) = Some 10 ∧
  map (λ k, (k, EP (ext lagging_node) k false))
      (spawn_keys (ext lagging_node) 10) = res ∧
  oldest 3 res 10 = 6 ∧
  spec_alive 3 10 6 = false ∧
  spec_oldest_alive 3 res 10 = 8 ∧
  result (somewhere.replicated false 10 (Real.of_Z 70) 3 lagging_node) = Some true ∧
  spec_replicate 3 res 10 = false.
Proof. by vm_compute. Qed.

(** When the visible generations are iterated from the oldest to the newest
    and the device is past its first [n] generations, the loop does find the
    oldest alive one. *)
Lemma oldest_ascending_from n now res m :
  0 < n ≤ now → now < Size.modulus →
  StronglySorted Z.lt (fst <$> res) →
  m = now ∨ (m ≤ now ∧ Forall (λ x : size_t * bool, m < fst x) res) →
  fold_left (λ now x, if Size.sub now n <? fst x then Z.min now (fst x) else now)
            res m =
  fold_left (λ m x, if spec_alive n now (fst x) && (fst x <? m) then fst x else m)
            res m.
Proof.
  intros Hn Hnow Hsorted. revert m.
  induction res as [|[k v] res IH]; intros m Hm; simpl; [done|].
  rewrite fmap_cons in Hsorted.
  apply StronglySorted_inv in Hsorted as [Hsorted Hk]. cbn [fst] in Hk.
  destruct Hm as [->|[Hm Hlt]].
  - rewrite size_sub_exact by lia. unfold spec_alive.
    destruct (now - n <? k) eqn:E1.
    + rewrite (proj2 (Z.leb_le _ _)) by lia. simpl.
      destruct (k <? now) eqn:E2.
      * rewrite Z.min_r by lia. apply IH; [done|]. right. split; [lia|].
        rewrite Forall_fmap in Hk. exact Hk.
      * rewrite Z.min_l by lia. apply IH; auto.
    + rewrite (proj2 (Z.leb_gt _ _)) by lia. simpl. apply IH; auto.
  - apply Forall_cons_iff in Hlt as [Hmk Hlt]. simpl in Hmk.
    rewrite (proj2 (Z.ltb_ge k m)) by lia. rewrite andb_false_r.
    case_match; [rewrite Z.min_l by lia|]; apply IH; auto.
Qed.

Lemma oldest_ascending n now res :
  0 < n ≤ now → now < Size.modulus →
  StronglySorted Z.lt (fst <$> res) →
  oldest n res now = spec_oldest_alive n res now.
Proof.
  intros Hn Hnow Hsorted. by apply oldest_ascending_from; auto.
Qed.

(** ** Configuration *)






(** ** The reporter *)

Lemma reporter_run (F : strategy) (fun_ : M bool) nd v nd1 :
  fun_ nd = Some (v, nd1) →
  reporter F fun_ nd =
  Some (tt, set_error F (xorb v (<[F := v]> (value (storage nd1)) Oracle))
              (set_msg_size F (Size.sub (cur_msg_size nd1) (cur_msg_size nd))
                 (set_value F v nd1))).
Proof.
  intros Hrun. unfold reporter, mbind, M_bind, get, modify; simpl.
  rewrite Hrun; simpl. by rewrite fn_lookup_insert.
Qed.


(** C8. A reporter call runs the strategy once: the node it leaves is the
    one the strategy left, with three fields of the storage rewritten: the
    value of the strategy, the error flag, which tells whether this value
    differs from the value stored for the oracle, and the bytes the
    strategy added to the outgoing message.  When the byte counter did not
    decrease, the stored size is the exact difference, and not negative. *)
Theorem reporter_record (F : strategy) (fun_ : M bool) (nd nd1 : node) (v : bool) :
  fun_ nd = Some (v, nd1) →
  0 ≤ cur_msg_size nd ≤ cur_msg_size nd1 →
  cur_msg_size nd1 < Size.modulus →
  ∃ nd', reporter F fun_ nd = Some (tt, nd') ∧
    value (storage nd') F = v ∧
    error (storage nd') F = xorb v (value (storage nd') Oracle) ∧
    (F ≠ Oracle → value (storage nd') Oracle = value (storage nd1) Oracle) ∧
    msg_size (storage nd') F = cur_msg_size nd1 - cur_msg_size nd ∧
    0 ≤ msg_size (storage nd') F ∧
    (uid nd', current_time nd', net_hops nd', cur_msg_size nd', ext nd') =
    (uid nd1, current_time nd1, net_hops nd1, cur_msg_size nd1, ext nd1).
Proof.
  intros Hrun Hmono Hrange. eexists. split; [by apply reporter_run|].
  simpl. rewrite !fn_lookup_insert, size_sub_exact by lia.
  split_and!; try done; [|lia].
  intros HF. by rewrite fn_lookup_insert_ne.
Qed.

(** ** Running [MAIN] *)

Lemma bind_some {A B} (m : M A) (k : A → M B) nd a nd1 :
  m nd = Some (a, nd1) → (m ≫= k) nd = k a nd1.
Proof. intros H. unfold mbind, M_bind. by rewrite H. Qed.

Lemma same_round_refl nd : same_round nd nd.
Proof. by repeat split. Qed.

Lemma same_round_trans nd1 nd2 nd3 :
  same_round nd1 nd2 → same_round nd2 nd3 → same_round nd1 nd3.
Proof.
  intros (?&?&?&?) (?&?&?&?). repeat split; congruence.
Qed.

Lemma same_round_exported c nd : same_round nd (exported c nd).
Proof. by repeat split. Qed.

Lemma main_call_same_round F nd nd' :
  same_round nd nd' → main_call F nd' = main_call F nd.
Proof.
  intros (Hu & Ht & Hh & _). unfold main_call. by rewrite Hu, Ht, Hh.
Qed.

Lemma baseline_run f diameter nd :
  somewhere.baseline f diameter nd =
  Some (abf_hops (ext nd) f <? diameter, exported AbfHops nd).
Proof. reflexivity. Qed.

Lemma replicated_full_run f diameter infospeed replicas nd now :
  generation (shared_clock (ext nd))
             (somewhere.replica_interval diameter infospeed replicas) = Some now →
  ∃ nd1, somewhere.replicated f diameter infospeed replicas nd =
           Some (at_key (map (λ k, (k, EP (ext nd) k f)) (spawn_keys (ext nd) now))
                        (oldest replicas
                           (map (λ k, (k, EP (ext nd) k f)) (spawn_keys (ext nd) now))
                           now), nd1) ∧
         same_round nd nd1 ∧ storage nd1 = storage nd.
Proof.
  intros Hgen. eexists. split.
  - unfold somewhere.replicated, mbind, M_bind, get.
    apply (replicate_run _ _ _ _ _ Hgen).
  - by repeat split.
Qed.

(** A strategy called by [MAIN] computes from the round alone: whatever
    the storage and the outgoing message hold, it yields the value it
    yields on the node the round started with, and leaves the storage. *)
Lemma main_call_run F nd0 nd :
  same_round nd0 nd → is_Some (main_generation nd0) →
  ∃ v nd1, main_call F nd0 nd = Some (v, nd1) ∧
           result (main_call F nd0 nd0) = Some v ∧
           same_round nd0 nd1 ∧ storage nd1 = storage nd.
Proof.
  intros Hsame [now Hgen]. pose proof Hsame as (Hu & Ht & Hh & He).
  unfold main_generation in Hgen.
  destruct F; unfold main_call.
  - eexists _, nd. by repeat split.
  - eexists _, _. rewrite !baseline_run, He. by repeat split.
  - eexists _, _. rewrite !knowledge_free_run, He, Hu. by repeat split.
  - pose proof Hgen as Hgen'. rewrite <- He in Hgen'.
    edestruct (replicated_full_run) as (nd1 & Hrun & Hs1 & Hst1); [apply Hgen'|].
    edestruct (replicated_full_run) as (nd2 & Hrun2 & _); [apply Hgen|].
    eexists _, nd1. rewrite Hrun, Hrun2, He.
    split_and!; try done. by eapply same_round_trans.
  - eexists _, _. rewrite !fastest_run, He, Hu, Ht. by repeat split.
Qed.

Lemma reporter_step (F : strategy) (fun_ : M bool) nd v nd1 :
  fun_ nd = Some (v, nd1) →
  ∃ nd', reporter F fun_ nd = Some (tt, nd') ∧
    (uid nd', current_time nd', net_hops nd', cur_msg_size nd', ext nd') =
    (uid nd1, current_time nd1, net_hops nd1, cur_msg_size nd1, ext nd1) ∧
    report_of F nd' =
      (v, xorb v (if decide (F = Oracle) then v else value (storage nd1) Oracle),
       Size.sub (cur_msg_size nd1) (cur_msg_size nd)) ∧
    (∀ G, G ≠ F → report_of G nd' = report_of G nd1) ∧
    display_of nd' = display_of nd1.
Proof.
  intros Hrun. eexists. split; [by apply reporter_run|].
  unfold report_of, display_of. simpl. rewrite !fn_lookup_insert.
  split_and!; try done.
  intros G HG. by rewrite !fn_lookup_insert_ne.
Qed.

Lemma main_unfold nd :
  main nd =
  (reporter Oracle (main_call Oracle nd);;
   reporter Baseline (main_call Baseline nd);;
   reporter KnowledgeFree (main_call KnowledgeFree nd);;
   reporter Replicated (main_call Replicated nd);;
   reporter Fastest (main_call Fastest nd);;
   modify (set_node_size
             (if (uid nd =? 0)%N &&
                 (Real.gt (current_time nd) (Size.to_real true_time) &&
                  Real.lt (current_time nd) (Size.to_real false_time))
              then 20 else 10));;
   r ← get (λ nd, value (storage nd) Replicated);
   modify (set_node_color (if (r : bool) then RED else GREEN));;
   h ← get (λ nd, value (storage nd) Baseline);
   modify (set_node_shape (if (h : bool) then star else sphere)))
    (exported RectangleWalk nd).
Proof. reflexivity. Qed.

Lemma report_step F nd0 nd :
  same_round nd0 nd → is_Some (main_generation nd0) →
  ∃ v nd', reporter F (main_call F nd0) nd = Some (tt, nd') ∧
    result (main_call F nd0 nd0) = Some v ∧
    same_round nd0 nd' ∧
    value (storage nd') F = v ∧
    error (storage nd') F =
      xorb v (if decide (F = Oracle) then v else value (storage nd) Oracle) ∧
    (∀ G, G ≠ F → report_of G nd' = report_of G nd) ∧
    display_of nd' = display_of nd.
Proof.
  intros Hsame Hgen.
  destruct (main_call_run F nd0 nd Hsame Hgen) as (v & nd1 & Hrun & Hres & Hs1 & Hst).
  destruct (reporter_step F _ nd v nd1 Hrun) as (nd' & Hrep & Heq & Hrp & Hfr & Hd).
  exists v, nd'. injection Heq as Hu Ht Hh _ He. injection Hrp as Hv Herr _.
  destruct Hs1 as (?&?&?&?). unfold report_of, display_of in *.
  rewrite Hst in *.
  split_and!; try done. repeat split; congruence.
Qed.

Lemma main_run nd :
  is_Some (main_generation nd) →
  ∃ nd', main nd = Some (tt, nd') ∧ same_round nd nd' ∧
    (∀ F, result (main_call F nd nd) = Some (value (storage nd') F)) ∧
    (∀ F, error (storage nd') F =
          xorb (value (storage nd') F) (value (storage nd') Oracle)).
Proof.
  intros Hgen.
  destruct (report_step Oracle nd _ (same_round_exported RectangleWalk nd) Hgen)
    as (v1 & n1 & R1 & V1 & S1 & P1 & E1 & F1 & _).
  destruct (report_step Baseline nd n1 S1 Hgen)
    as (v2 & n2 & R2 & V2 & S2 & P2 & E2 & F2 & _).
  destruct (report_step KnowledgeFree nd n2 S2 Hgen)
    as (v3 & n3 & R3 & V3 & S3 & P3 & E3 & F3 & _).
  destruct (report_step Replicated nd n3 S3 Hgen)
    as (v4 & n4 & R4 & V4 & S4 & P4 & E4 & F4 & _).
  destruct (report_step Fastest nd n4 S4 Hgen)
    as (v5 & n5 & R5 & V5 & S5 & P5 & E5 & F5 & _).
  eexists. split.
  { rewrite main_unfold.
    rewrite (bind_some _ _ _ _ _ R1), (bind_some _ _ _ _ _ R2),
      (bind_some _ _ _ _ _ R3), (bind_some _ _ _ _ _ R4),
      (bind_some _ _ _ _ _ R5).
    reflexivity. }
  cbn [value error storage set_node_shape set_node_color set_node_size
       with_storage].
  assert (∀ G, report_of G n2 = report_of G n1 ∨ G = Baseline) as K2.
  { intros G. destruct (decide (G = Baseline)); auto. }
  assert (∀ G, report_of G n3 = report_of G n2 ∨ G = KnowledgeFree) as K3.
  { intros G. destruct (decide (G = KnowledgeFree)); auto. }
  assert (∀ G, report_of G n4 = report_of G n3 ∨ G = Replicated) as K4.
  { intros G. destruct (decide (G = Replicated)); auto. }
  assert (∀ G, report_of G n5 = report_of G n4 ∨ G = Fastest) as K5.
  { intros G. destruct (decide (G = Fastest)); auto. }
  unfold report_of in *.
  split_and!.
  - destruct S5 as (?&?&?&?). by repeat split.
  - intros F.
    destruct (K2 F) as [H2|?], (K3 F) as [H3|?], (K4 F) as [H4|?],
             (K5 F) as [H5|?]; destruct F; try discriminate; congruence.
  - pose proof (K2 Oracle) as [H2|?]; [|discriminate].
    pose proof (K3 Oracle) as [H3|?]; [|discriminate].
    pose proof (K4 Oracle) as [H4|?]; [|discriminate].
    pose proof (K5 Oracle) as [H5|?]; [|discriminate].
    intros F.
    destruct (K2 F) as [G2|?], (K3 F) as [G3|?], (K4 F) as [G4|?],
             (K5 F) as [G5|?]; destruct F; try discriminate;
      repeat case_decide; try done; simplify_eq; try congruence.
Qed.


(** C10. The oracle is the first strategy [MAIN] reports, and the error of
    a strategy compares its value with the one stored for the oracle as the
    storage then is: for the oracle, with the value just stored.  Its error
    flag is false after its reporter call, and still at the end of [MAIN]. *)
Theorem oracle_error_false (nd : node) :
  is_Some (main_generation nd) →
  (∀ f val nd0, ∃ nd',
     reporter Oracle (somewhere.oracle f val) nd0 = Some (tt, nd') ∧
     value (storage nd') Oracle = val ∧
     error (storage nd') Oracle = false) ∧
  ∃ nd', main nd = Some (tt, nd') ∧ error (storage nd') Oracle = false.
Proof.
  intros Hgen. split.
  - intros f val nd0.
    destruct (reporter_step Oracle (somewhere.oracle f val) nd0 val nd0 eq_refl)
      as (nd' & Hrep & _ & Hreport & _).
    exists nd'. unfold report_of in Hreport. injection Hreport as Hv He _.
    split_and!; try done. rewrite He. simpl. apply xorb_nilpotent.
  - destruct (main_run nd Hgen) as (nd' & Hmain & _ & _ & Herr).
    exists nd'. split; [done|]. rewrite Herr. apply xorb_nilpotent.
Qed.

(** ** Further properties of the replicator and of netstates *)

(** X1. When the visible generations are iterated from the oldest to the newest
    on a device past its first [n] generations, [replicate] reports the
    oldest alive generation, as the design document describes. *)
Theorem replicate_ascending_oldest_alive (n now : size_t)
    (res : list (size_t * bool)) :
  0 < n ≤ now → now < Size.modulus →
  StronglySorted Z.lt (fst <$> res) →
  oldest n res now = spec_oldest_alive n res now ∧
  at_key res (oldest n res now) = spec_replicate n res now.
Proof.
  intros Hn Hnow Hsorted. unfold spec_replicate.
  by rewrite (oldest_ascending n now res Hn Hnow Hsorted).
Qed.

(** X2. During the first [n] generations of a device the unsigned [now - n]
    wraps around: no visible generation counts as alive, and [replicate]
    reports the generation of the device itself. *)
Theorem replicate_cold_start (n now : size_t) (res : list (size_t * bool)) :
  0 ≤ now < n → n ≤ Size.modulus →
  Forall (λ x : size_t * bool, fst x ≤ now) res →
  oldest n res now = now ∧
  at_key res (oldest n res now) = at_key res now.
Proof.
  intros Hnow Hn Hres.
  assert (oldest n res now = now) as ->; [|done].
  apply oldest_wrapped; [done|done|].
  revert Hres. apply Forall_impl. intros x Hx. lia.
Qed.

(** X3. No operation of [netstate] brings in a NaN timestamp: the fresh
    netstate has none, an update with a time keeps it so, and so does the
    maximum. *)
Theorem netstate_times_invariant :
  netstate.timed netstate.new ∧
  (∀ s id time val, Real.is_nan time = false → netstate.timed s →
                    netstate.timed (netstate.update s id time val)) ∧
  (∀ x y, netstate.timed x → netstate.timed y →
          netstate.timed (netstate.max x y)).
Proof.
  split_and!.
  - apply netstate_timed_new.
  - intros s id time val. apply netstate_timed_update.
  - apply netstate_timed_max.
Qed.

(** ** The theorems at sample inputs *)

Lemma netstate_max_semilattice_witness :
  netstate.timed sample_x ∧ netstate.timed sample_y ∧ netstate.timed sample_z ∧
  netstate.max sample_x sample_y = netstate.max sample_y sample_x ∧
  netstate.max (netstate.max sample_x sample_y) sample_z =
    netstate.max sample_x (netstate.max sample_y sample_z) ∧
  netstate.max sample_x sample_x = sample_x ∧
  netstate.lookup (updated [(1%N, Fin (Q2Qc (3 # 1)), true)]) 2%N = (NegInf, false).
Proof.
  assert (netstate.timed sample_x) as Hx by (vm_compute; exact I).
  assert (netstate.timed sample_y) as Hy by (vm_compute; exact I).
  assert (netstate.timed sample_z) as Hz by (vm_compute; exact I).
  destruct (netstate_max_semilattice sample_x sample_y sample_z Hx Hy Hz)
    as (Hcomm & Hassoc & Hidem & _ & Hunseen).
  split; [exact Hx|]. split; [exact Hy|]. split; [exact Hz|].
  split; [exact Hcomm|]. split; [exact Hassoc|]. split; [exact Hidem|].
  apply Hunseen. vm_compute. intros H.
  apply list_elem_of_In in H. destruct H as [H|[]]. discriminate H.
Defined.




Lemma reporter_record_witness :
  ∃ nd', reporter Fastest (somewhere.fastest false 10 (Real.of_Z 70)) lagging_node =
           Some (tt, nd') ∧
         value (storage nd') Fastest = true ∧
         error (storage nd') Fastest = true ∧
         msg_size (storage nd') Fastest = 4 ∧
         0 ≤ msg_size (storage nd') Fastest.
Proof.
  pose proof (fastest_run false 10 (Real.of_Z 70) lagging_node) as Hrun.
  cbv zeta in Hrun.
  destruct (reporter_record Fastest _ lagging_node _ _ Hrun)
    as (nd' & Hrep & Hv & He & Ho & Hm & Hpos & _).
  - split; intros H; discriminate H.
  - reflexivity.
  - exists nd'. split; [exact Hrep|]. split; [exact Hv|].
    split; [|split; [exact Hm | exact Hpos]].
    rewrite He, Ho; [reflexivity | discriminate].
Defined.


Lemma oracle_error_false_witness :
  is_Some (main_generation lagging_node) ∧
  ∃ nd', main lagging_node = Some (tt, nd') ∧ error (storage nd') Oracle = false.
Proof.
  assert (is_Some (main_generation lagging_node)) as Hgen
    by (exists 10; reflexivity).
  split; [exact Hgen|].
  exact (proj2 (oracle_error_false lagging_node Hgen)).
Defined.

Lemma replicate_ascending_oldest_alive_witness :
  oldest 3 [(6, true); (8, false); (10, false)] 10 = 8 ∧
  at_key [(6, true); (8, false); (10, false)] 8 = false.
Proof.
  assert (0 < 3 ≤ 10) as H1 by lia.
  assert (10 < Size.modulus) as H2 by reflexivity.
  assert (StronglySorted Z.lt (fst <$> [(6, true); (8, false); (10, false)])) as H3
    by (repeat constructor).
  destruct (replicate_ascending_oldest_alive
              3 10 [(6, true); (8, false); (10, false)] H1 H2 H3)
    as (Hold & Hres).
  split; [exact Hold | reflexivity].
Defined.

Lemma replicate_cold_start_witness :
  oldest 3 [(0, true); (1, false)] 1 = 1 ∧
  at_key [(0, true); (1, false)] (oldest 3 [(0, true); (1, false)] 1) = false.
Proof.
  assert (0 ≤ 1 < 3) as H1 by lia.
  assert (3 ≤ Size.modulus) as H2 by (intros H; discriminate H).
  assert (Forall (λ x : size_t * bool, fst x ≤ 1) [(0, true); (1, false)]) as H3
    by (repeat constructor; intros H; discriminate H).
  destruct (replicate_cold_start 3 1 [(0, true); (1, false)] H1 H2 H3)
    as (Hold & Hres).
  split; [exact Hold | exact Hres].
Defined.

(** * Further properties *)

(** ** Netstates as maps *)

Lemma netstate_update_update (s : netstate.t) id t1 v1 t2 v2 :
  netstate.update (netstate.update s id t1 v1) id t2 v2 =
  netstate.update s id t2 v2.
Proof.
  unfold netstate.update, self_set; simpl. by rewrite insert_insert_eq.
Qed.

Lemma netstate_update_swap (s : netstate.t) id1 t1 v1 id2 t2 v2 :
  id1 ≠ id2 →
  netstate.update (netstate.update s id1 t1 v1) id2 t2 v2 =
  netstate.update (netstate.update s id2 t2 v2) id1 t1 v1.
Proof.
  intros Hne. unfold netstate.update, self_set; simpl.
  by rewrite insert_insert_ne.
Qed.

(** X4. An update is read back by a lookup of the same device and leaves
    every other device as it was; of two updates of one device the later
    one stands, and updates of different devices can be swapped. *)
Theorem netstate_update_lookup (s : netstate.t) (id : device_t)
    (time : times_t) (val : bool) :
  netstate.lookup (netstate.update s id time val) id = (time, val) ∧
  (∀ id', id' ≠ id →
          netstate.lookup (netstate.update s id time val) id' =
          netstate.lookup s id') ∧
  (∀ time' val',
     netstate.update (netstate.update s id time' val') id time val =
     netstate.update s id time val) ∧
  (∀ id' time' val', id' ≠ id →
     netstate.update (netstate.update s id' time' val') id time val =
     netstate.update (netstate.update s id time val) id' time' val').
Proof.
  split_and!.
  - rewrite netstate_lookup_update. by case_decide.
  - intros id' Hne. rewrite netstate_lookup_update. by case_decide.
  - intros time' val'. apply netstate_update_update.
  - intros id' time' val' Hne. by rewrite (netstate_update_swap s id' time' val' id time val).
Qed.

(** ** The fresh netstate and the order of a fold *)

Lemma tuple_max_bottom_r (a : entry) : tuple_max a (Real.neg INF, false) = a.
Proof.
  destruct a as [t v]. unfold tuple_max, std_max, tuple_lt, bool_lt; simpl.
  assert (Real.lt t NegInf = false) as -> by by destruct t.
  by rewrite !andb_false_r.
Qed.

Lemma tuple_max_bottom_l (a : entry) :
  timed_entry a → tuple_max (Real.neg INF, false) a = a.
Proof.
  destruct a as [t v]. unfold timed_entry, tuple_max, std_max, tuple_lt, bool_lt.
  change (Real.neg INF) with NegInf.
  simpl. intros Ht. destruct t, v; simpl in *; first [done | congruence].
Qed.

Lemma netstate_max_new_r (x : netstate.t) : netstate.max x netstate.new = x.
Proof.
  apply netstate_eq; unfold netstate.max; cbn [netstate.data].
  - rewrite fdef_map_hood2. apply tuple_max_bottom_r.
  - intros id. rewrite fexc_map_hood2.
    change (fexc (netstate.data netstate.new) !! id) with (@None entry).
    change (self (netstate.data netstate.new) id) with (Real.neg INF, false).
    rewrite tuple_max_bottom_r. unfold self. by repeat case_match.
Qed.

Lemma netstate_max_new_l (x : netstate.t) :
  netstate.timed x → netstate.max netstate.new x = x.
Proof.
  intros Hx. rewrite netstate_max_comm; [apply netstate_max_new_r | done..].
Qed.

Lemma fold_left_max_timed (l : list netstate.t) (a : netstate.t) :
  Forall (λ s, netstate.timed s) l → netstate.timed a →
  netstate.timed (fold_left netstate.max l a).
Proof.
  intros Hl. revert a. induction Hl as [|x l Hx Hl IH]; intros a Ha; simpl.
  - done.
  - apply IH. by apply netstate_timed_max.
Qed.

Lemma fold_left_max_perm (l l' : list netstate.t) (a : netstate.t) :
  l ≡ₚ l' → Forall (λ s, netstate.timed s) l → netstate.timed a →
  fold_left netstate.max l a = fold_left netstate.max l' a.
Proof.
  intros Hperm. revert a.
  induction Hperm as [|x l l' Hperm IH|x y l|l l' l'' H1 IH1 H2 IH2];
    intros a Hl Ha; simpl.
  - done.
  - apply Forall_cons_iff in Hl as [Hx Hl].
    apply IH; [done|]. by apply netstate_timed_max.
  - apply Forall_cons_iff in Hl as [Hy Hl].
    apply Forall_cons_iff in Hl as [Hx Hl].
    f_equal. rewrite !netstate_max_assoc by done.
    f_equal. by apply netstate_max_comm.
  - rewrite IH1 by done. apply IH2; [|done].
    by rewrite <- H1.
Qed.

Lemma fold_hood_max_as_fold (n0 : netstate.t) (n : list netstate.t) :
  fold_hood netstate.max n0 n = fold_left netstate.max (n0 :: n) n0.
Proof. unfold fold_hood. simpl. by rewrite netstate_max_idem. Qed.

Lemma fold_hood_max_from_new (n0 : netstate.t) (n : list netstate.t) :
  netstate.timed n0 →
  fold_hood netstate.max n0 n = fold_left netstate.max (n0 :: n) netstate.new.
Proof. intros H0. unfold fold_hood. simpl. by rewrite netstate_max_new_l. Qed.

(** X5. The fresh netstate is the identity of the merge: merging it into
    any netstate changes nothing, and merging a netstate without NaN
    timestamps into it gives that netstate. *)
Theorem netstate_new_identity (x : netstate.t) :
  netstate.max x netstate.new = x ∧
  (netstate.timed x → netstate.max netstate.new x = x).
Proof. split; [apply netstate_max_new_r | apply netstate_max_new_l]. Qed.

(** X6. The netstate [fold_hood] merges from a neighbourhood does not
    depend on the order in which the neighbours are visited. *)
Theorem fold_hood_max_permutation (n0 m0 : netstate.t) (n m : list netstate.t) :
  Forall (λ s, netstate.timed s) (n0 :: n) → n0 :: n ≡ₚ m0 :: m →
  fold_hood netstate.max n0 n = fold_hood netstate.max m0 m.
Proof.
  intros Hall Hperm.
  assert (Forall (λ s, netstate.timed s) (m0 :: m)) as Hall'
    by by rewrite <- Hperm.
  rewrite !fold_hood_max_from_new;
    [|by apply Forall_cons_iff in Hall' as [? _]
     |by apply Forall_cons_iff in Hall as [? _]].
  apply fold_left_max_perm; [done|done|apply netstate_timed_new].
Qed.

(** ** What [value] tells *)

Lemma netstate_value_new threshold : netstate.value netstate.new threshold = false.
Proof.
  apply not_true_iff_false. rewrite netstate_value_spec.
  intros (e & He & _ & Hv).
  apply elem_of_get_vals in He as [->|[id Hid]]; [discriminate Hv|].
  simpl in Hid. by rewrite lookup_empty in Hid.
Qed.

Lemma netstate_value_antitone (s : netstate.t) th1 th2 :
  Real.lt th1 th2 = true →
  netstate.value s th2 = true → netstate.value s th1 = true.
Proof.
  intros Hlt. rewrite !netstate_value_spec. intros (e & He & Hgt & Hv).
  exists e. split_and!; try done.
  unfold Real.gt in *. by eapply real_lt_trans.
Qed.

Lemma tuple_max_cases (a b : entry) : tuple_max a b = a ∨ tuple_max a b = b.
Proof. unfold tuple_max, std_max. destruct (tuple_lt a b); auto. Qed.

Lemma get_vals_max (x y : netstate.t) (e : entry) :
  e ∈ get_vals (netstate.data (netstate.max x y)) →
  e ∈ get_vals (netstate.data x) ∨ e ∈ get_vals (netstate.data y).
Proof.
  unfold netstate.max; cbn [netstate.data]. rewrite elem_of_get_vals.
  intros [->|[id Hid]].
  - rewrite fdef_map_hood2.
    destruct (tuple_max_cases (fdef (netstate.data x)) (fdef (netstate.data y)))
      as [-> | ->]; [left|right]; apply elem_of_get_vals; by left.
  - rewrite fexc_map_hood2 in Hid.
    assert (e = tuple_max (self (netstate.data x) id) (self (netstate.data y) id))
      as -> by (repeat case_match; by simplify_eq).
    destruct (tuple_max_cases (self (netstate.data x) id)
                              (self (netstate.data y) id))
      as [-> | ->]; [left|right]; apply self_in_get_vals.
Qed.

Lemma netstate_value_max (x y : netstate.t) threshold :
  netstate.value (netstate.max x y) threshold = true →
  netstate.value x threshold = true ∨ netstate.value y threshold = true.
Proof.
  rewrite !netstate_value_spec. intros (e & He & Hgt & Hv).
  apply get_vals_max in He as [He|He]; [left|right]; by exists e.
Qed.

(** X7. A fresh netstate tells of no true value, whatever the threshold; a
    true answer at a threshold stands at every lower threshold; and the
    merge invents nothing: a true answer of a merged netstate is one of
    either netstate it was merged from. *)
Theorem netstate_value_facts (x y : netstate.t) (th1 th2 : times_t) :
  netstate.value netstate.new th1 = false ∧
  (Real.lt th1 th2 = true →
   netstate.value x th2 = true → netstate.value x th1 = true) ∧
  (netstate.value (netstate.max x y) th1 = true →
   netstate.value x th1 = true ∨ netstate.value y th1 = true).
Proof.
  split_and!.
  - apply netstate_value_new.
  - apply netstate_value_antitone.
  - apply netstate_value_max.
Qed.

(** ** What the fastest strategy detects *)

Lemma get_vals_update (s : netstate.t) id time val (e : entry) :
  e ∈ get_vals (netstate.data (netstate.update s id time val)) →
  e = (time, val) ∨ e ∈ get_vals (netstate.data s).
Proof.
  rewrite !elem_of_get_vals. unfold netstate.update; simpl.
  intros [->|[id' Hid]]; [by right; left|].
  rewrite lookup_insert in Hid. case_decide; simplify_eq; eauto.
Qed.

Lemma get_vals_fold_max (l : list netstate.t) (a : netstate.t) (e : entry) :
  e ∈ get_vals (netstate.data (fold_left netstate.max l a)) →
  ∃ s, s ∈ a :: l ∧ e ∈ get_vals (netstate.data s).
Proof.
  revert a. induction l as [|x l IH]; intros a He; simpl in He.
  - exists a. split; [apply list_elem_of_here | done].
  - apply IH in He as (s & Hs & He).
    apply elem_of_cons in Hs as [->|Hs].
    + apply get_vals_max in He as [He|He]; [exists a | exists x];
        (split; [|done]); rewrite !elem_of_cons; auto.
    + exists s. split; [|done]. rewrite !elem_of_cons; auto.
Qed.

Lemma window_finite (c : Qc) (diameter : hops_t) (s : Qc) :
  (0 < s)%Qc →
  somewhere.window (Fin c) diameter (Fin s) =
  Fin (c - Q2Qc (inject_Z diameter) / s)%Qc.
Proof.
  intros Hs. unfold somewhere.window, Real.of_Z.
  by rewrite real_div_pos.
Qed.



(** X9. The fastest strategy raises no alarm of its own: when the local
    trigger is false and no netstate received from the neighbourhood holds
    a true value above the threshold, it returns false. *)
Theorem fastest_quiet (diameter : hops_t) (infospeed : real_t) (nd : node) :
  let n := nbr_netstate (ext nd) netstate.new in
  let threshold := somewhere.window (current_time nd) diameter infospeed in
  (∀ s, s ∈ fst n :: snd n → netstate.value s threshold = false) →
  result (somewhere.fastest false diameter infospeed nd) = Some false.
Proof.
  intros n threshold Hquiet. rewrite fastest_run. simpl. f_equal.
  apply not_true_iff_false. rewrite netstate_value_spec.
  intros (e & He & Hgt & Hv).
  apply get_vals_update in He as [->|He]; [discriminate Hv|].
  apply get_vals_fold_max in He as (s & Hs & He).
  specialize (Hquiet s Hs). apply not_true_iff_false in Hquiet.
  apply Hquiet, netstate_value_spec. by exists e.
Qed.

(** ** The diameter bound *)

Lemma Qc_of_Z_lt (a b : Z) :
  a < b → (Q2Qc (inject_Z a) < Q2Qc (inject_Z b))%Qc.
Proof.
  intros Hab. unfold Qclt.
  change (this (Q2Qc (inject_Z a))) with (Qred (inject_Z a)).
  change (this (Q2Qc (inject_Z b))) with (Qred (inject_Z b)).
  rewrite !Qred_correct. unfold Qlt; simpl. lia.
Qed.

Lemma window_decreasing (c : Qc) (d1 d2 : hops_t) (s : Qc) :
  d1 < d2 → (0 < s)%Qc →
  Real.lt (somewhere.window (Fin c) d2 (Fin s))
          (somewhere.window (Fin c) d1 (Fin s)) = true.
Proof.
  intros Hd Hs. rewrite !window_finite by done. simpl.
  apply qlt_spec, Qclt_minus_iff.
  replace (c - Q2Qc (inject_Z d1) / s + - (c - Q2Qc (inject_Z d2) / s))%Qc
    with ((Q2Qc (inject_Z d2) + - Q2Qc (inject_Z d1)) * / s)%Qc
    by (unfold Qcdiv; ring).
  rewrite <- (Qcmult_0_l (/ s)).
  apply Qcmult_lt_compat_r; [by apply Qc_inv_pos|].
  by apply (proj1 (Qclt_minus_iff _ _)), Qc_of_Z_lt.
Qed.

(** X10. A larger diameter bound loses no detection: when the baseline or
    the fastest strategy returns true for a diameter, it returns true for
    every larger one on the same round. *)
Theorem diameter_monotone (f : bool) (d1 d2 : hops_t) (nd : node) :
  d1 ≤ d2 →
  (result (somewhere.baseline f d1 nd) = Some true →
   result (somewhere.baseline f d2 nd) = Some true) ∧
  (∀ s c : Qc, (0 < s)%Qc → current_time nd = Fin c →
     result (somewhere.fastest f d1 (Fin s) nd) = Some true →
     result (somewhere.fastest f d2 (Fin s) nd) = Some true).
Proof.
  intros Hd. split.
  - rewrite !baseline_run. simpl. intros [= H]. f_equal. lia.
  - intros s c Hs Hc. rewrite !fastest_run. simpl. rewrite Hc.
    intros [= H]. f_equal.
    destruct (decide (d1 = d2)) as [->|Hne]; [done|].
    eapply netstate_value_antitone; [|exact H].
    apply window_decreasing; [lia|done].
Qed.

(** ** The generation the replicator reports *)

Lemma oldest_cons n (x : size_t * bool) (res : list (size_t * bool)) (m : size_t) :
  oldest n (x :: res) m =
  oldest n res (if Size.sub m n <? fst x then Z.min m (fst x) else m).
Proof. reflexivity. Qed.

Lemma oldest_le n (res : list (size_t * bool)) (m : size_t) :
  oldest n res m ≤ m.
Proof.
  revert m. induction res as [|x res IH]; intros m; [done|].
  rewrite oldest_cons. etrans; [apply IH|]. case_match; lia.
Qed.

Lemma oldest_visible n (res : list (size_t * bool)) (m : size_t) :
  oldest n res m = m ∨ oldest n res m ∈ fst <$> res.
Proof.
  revert m. induction res as [|x res IH]; intros m; [by left|].
  rewrite oldest_cons, fmap_cons, elem_of_cons.
  destruct (IH (if Size.sub m n <? fst x then Z.min m (fst x) else m))
    as [->|Hin]; [|by auto].
  case_match; [|by left].
  destruct (Z.min_spec m (fst x)) as [[_ ->]|[_ ->]]; auto.
Qed.

Lemma at_key_missing (res : list (size_t * bool)) (k : size_t) :
  k ∉ fst <$> res → at_key res k = false.
Proof.
  unfold at_key. induction res as [|x res IH]; [done|].
  rewrite fmap_cons, not_elem_of_cons. intros [Hne Hk]. simpl.
  destruct (_ =? k) eqn:E; [|by apply IH].
  apply Z.eqb_eq in E. by symmetry in E.
Qed.

Lemma at_key_found (res : list (size_t * bool)) (k : size_t) :
  at_key res k = true → (k, true) ∈ res.
Proof.
  unfold at_key. induction res as [|[k' v] res IH]; simpl; [done|].
  destruct (k' =? k) eqn:E; simpl.
  - apply Z.eqb_eq in E as ->. intros ->. apply list_elem_of_here.
  - intros H. apply list_elem_of_further. by apply IH.
Qed.

(** X11. Whatever the order of the visible generations, [replicate]
    reports the result of a generation that is not newer than the device's
    own and is the device's own or a visible one; it yields true only when
    that generation is visible with the result true, and false when the
    generation it selects has no entry in the result of [spawn]. *)
Theorem replicate_reports_visible (fun_ : size_t → bool) (n : size_t)
    (t : times_t) (nd : node) (now : size_t) :
  generation (shared_clock (ext nd)) t = Some now →
  let keys := spawn_keys (ext nd) now in
  ∃ g, g ≤ now ∧ (g = now ∨ g ∈ keys) ∧
       result (replicate fun_ n t nd) =
         Some (at_key (map (λ k, (k, fun_ k)) keys) g) ∧
       (result (replicate fun_ n t nd) = Some true → g ∈ keys ∧ fun_ g = true) ∧
       (g ∉ keys → result (replicate fun_ n t nd) = Some false).
Proof.
  intros Hgen keys. rewrite (replicate_run _ _ _ _ _ Hgen). simpl.
  fold keys. set (res := map (λ k, (k, fun_ k)) keys).
  assert (fst <$> res = keys) as Hkeys.
  { unfold res. rewrite <- list_fmap_compose. apply list_fmap_id. }
  exists (oldest n res now). split_and!.
  - apply oldest_le.
  - rewrite <- Hkeys. apply oldest_visible.
  - done.
  - intros [= Htrue]. apply at_key_found in Htrue.
    apply list_elem_of_fmap in Htrue as (k & [= Hk Hv] & Hin).
    by rewrite Hk.
  - intros Hnot. f_equal. apply at_key_missing. by rewrite Hkeys.
Qed.

(** ** Generations as time buckets *)







(** ** The whole of [MAIN] *)



Lemma reported_of_run F nd0 n v nd1 :
  main_call F nd0 n = Some (v, nd1) →
  result (main_call F nd0 nd0) = Some v →
  same_round nd0 nd1 → storage nd1 = storage n →
  ∃ n', reported nd0 F n n'.
Proof.
  intros Hrun Hres Hs1 Hst.
  destruct (reporter_step F _ n v nd1 Hrun) as (n' & Hrep & Heq & Hrp & Hfr & Hd).
  exists n'. injection Heq as Hu Ht Hh Hc He. injection Hrp as Hv Herr Hm.
  destruct Hs1 as (?&?&?&?). unfold reported, report_of, display_of in *.
  rewrite Hst in *. rewrite Hc, Hv.
  split_and!; try done. repeat split; congruence.
Qed.

Lemma reported_step F nd0 n :
  same_round nd0 n → is_Some (main_generation nd0) → ∃ n', reported nd0 F n n'.
Proof.
  intros Hsame Hgen.
  destruct (main_call_run F nd0 n Hsame Hgen) as (v & nd1 & Hrun & Hres & Hs1 & Hst).
  by eapply reported_of_run.
Qed.


Lemma main_trace nd :
  is_Some (main_generation nd) →
  ∃ n1 n2 n3 n4 n5,
    reported nd Oracle (exported RectangleWalk nd) n1 ∧
    reported nd Baseline n1 n2 ∧
    reported nd KnowledgeFree n2 n3 ∧
    reported nd Replicated n3 n4 ∧
    reported nd Fastest n4 n5 ∧
    main nd =
    Some (tt, set_node_shape
                (if value (storage n5) Baseline then star else sphere)
                (set_node_color
                   (if value (storage n5) Replicated then RED else GREEN)
                   (set_node_size (if main_formula nd then 20 else 10) n5))).
Proof.
  intros Hgen.
  destruct (reported_step Oracle nd _ (same_round_exported RectangleWalk nd) Hgen)
    as (n1 & R1).
  destruct (reported_step Baseline nd n1 (proj1 (proj2 R1)) Hgen) as (n2 & R2).
  destruct (reported_step KnowledgeFree nd n2 (proj1 (proj2 R2)) Hgen) as (n3 & R3).
  destruct (reported_step Replicated nd n3 (proj1 (proj2 R3)) Hgen) as (n4 & R4).
  destruct (reported_step Fastest nd n4 (proj1 (proj2 R4)) Hgen) as (n5 & R5).
  exists n1, n2, n3, n4, n5. split_and!; try done.
  rewrite main_unfold.
  rewrite (bind_some _ _ _ _ _ (proj1 R1)), (bind_some _ _ _ _ _ (proj1 R2)),
    (bind_some _ _ _ _ _ (proj1 R3)), (bind_some _ _ _ _ _ (proj1 R4)),
    (bind_some _ _ _ _ _ (proj1 R5)).
  reflexivity.
Qed.


Lemma reported_frame nd0 F G n n' :
  reported nd0 F n n' → G ≠ F → report_of G n' = report_of G n.
Proof. intros (_ & _ & _ & _ & _ & Hfr & _) HG. by apply Hfr. Qed.

Lemma main_trace_final nd n1 n2 n3 n4 n5 :
  reported nd Oracle (exported RectangleWalk nd) n1 →
  reported nd Baseline n1 n2 →
  reported nd KnowledgeFree n2 n3 →
  reported nd Replicated n3 n4 →
  reported nd Fastest n4 n5 →
  report_of Oracle n5 = report_of Oracle n1 ∧
  report_of Baseline n5 = report_of Baseline n2 ∧
  report_of KnowledgeFree n5 = report_of KnowledgeFree n3 ∧
  report_of Replicated n5 = report_of Replicated n4.
Proof.
  intros R1 R2 R3 R4 R5. split_and!.
  - rewrite (reported_frame _ _ Oracle _ _ R5), (reported_frame _ _ Oracle _ _ R4),
      (reported_frame _ _ Oracle _ _ R3), (reported_frame _ _ Oracle _ _ R2); done.
  - rewrite (reported_frame _ _ Baseline _ _ R5),
      (reported_frame _ _ Baseline _ _ R4),
      (reported_frame _ _ Baseline _ _ R3); done.
  - rewrite (reported_frame _ _ KnowledgeFree _ _ R5),
      (reported_frame _ _ KnowledgeFree _ _ R4); done.
  - rewrite (reported_frame _ _ Replicated _ _ R5); done.
Qed.

Lemma somewhere_f_window (nd : node) (q : Qc) :
  current_time nd = Fin q →
  main_somewhere_f nd = true ↔
  (Q2Qc (inject_Z true_time) < q ∧ q < Q2Qc (inject_Z false_time))%Qc.
Proof.
  intros Hq. unfold main_somewhere_f. rewrite Hq, andb_true_iff.
  unfold Real.gt, Size.to_real, Real.of_Z; simpl. by rewrite !qlt_spec.
Qed.

(** X13. At the end of [MAIN] the value stored for the oracle is the ground
    truth of the round, true exactly while the current time is strictly
    between [true_time] and [false_time]; the node size is 20 on device 0
    while that holds and 10 otherwise; the colour is red exactly when the
    replicated strategy stored true, and the shape a star exactly when the
    baseline stored true. *)
Theorem main_display (nd : node) :
  is_Some (main_generation nd) →
  ∃ nd', main nd = Some (tt, nd') ∧
    value (storage nd') Oracle = main_somewhere_f nd ∧
    (∀ q, current_time nd = Fin q →
       value (storage nd') Oracle = true ↔
       (Q2Qc (inject_Z true_time) < q ∧ q < Q2Qc (inject_Z false_time))%Qc) ∧
    node_size (storage nd') =
      (if (uid nd =? 0)%N && value (storage nd') Oracle then 20 else 10) ∧
    node_color (storage nd') =
      (if value (storage nd') Replicated then RED else GREEN) ∧
    node_shape (storage nd') =
      (if value (storage nd') Baseline then star else sphere).
Proof.
  intros Hgen.
  destruct (main_trace nd Hgen) as (n1 & n2 & n3 & n4 & n5 & R1 & R2 & R3 & R4 & R5 & Hmain).
  destruct (main_trace_final nd n1 n2 n3 n4 n5 R1 R2 R3 R4 R5) as (HO & _).
  eexists. split; [exact Hmain|]. cbn.
  assert (value (storage n5) Oracle = main_somewhere_f nd) as Htruth.
  { unfold report_of in HO. injection HO as -> _ _.
    destruct R1 as (_ & _ & Hres & _). by injection Hres as <-. }
  split_and!; try done.
  - intros q Hq. rewrite Htruth. by apply somewhere_f_window.
  - by rewrite Htruth.
Qed.

(** X14. At the end of [MAIN] the error flag of every strategy tells
    whether the value stored for it differs from the value stored for the
    oracle in the same round. *)
Theorem main_errors (nd : node) :
  is_Some (main_generation nd) →
  ∃ nd', main nd = Some (tt, nd') ∧
    ∀ F, error (storage nd') F = true ↔
         value (storage nd') F ≠ value (storage nd') Oracle.
Proof.
  intros Hgen.
  destruct (main_run nd Hgen) as (nd' & Hmain & _ & _ & Herr).
  exists nd'. split; [done|]. intros F. rewrite Herr.
  destruct (value (storage nd') F), (value (storage nd') Oracle); simpl;
    split; congruence.
Qed.

(** ** Accounting for the outgoing message *)

Lemma wrap_range z : 0 ≤ Size.wrap z < Size.modulus.
Proof. unfold Size.wrap. apply Z.mod_pos_bound. by compute. Qed.

Lemma wrap_telescope (c0 c1 c2 c3 c4 c5 : Z) :
  Size.wrap (Size.sub c1 c0 + Size.sub c2 c1 + Size.sub c3 c2 +
             Size.sub c4 c3 + Size.sub c5 c4) = Size.sub c5 c0.
Proof.
  unfold Size.sub, Size.wrap.
  assert (Size.modulus ≠ 0) as HM by by compute.
  pose proof (Z.div_mod (c1 - c0) _ HM) as H1.
  pose proof (Z.div_mod (c2 - c1) _ HM) as H2.
  pose proof (Z.div_mod (c3 - c2) _ HM) as H3.
  pose proof (Z.div_mod (c4 - c3) _ HM) as H4.
  pose proof (Z.div_mod (c5 - c4) _ HM) as H5.
  replace ((c1 - c0) mod Size.modulus + (c2 - c1) mod Size.modulus +
           (c3 - c2) mod Size.modulus + (c4 - c3) mod Size.modulus +
           (c5 - c4) mod Size.modulus)
    with (c5 - c0 +
          (- ((c1 - c0) / Size.modulus) - (c2 - c1) / Size.modulus -
           (c3 - c2) / Size.modulus - (c4 - c3) / Size.modulus -
           (c5 - c4) / Size.modulus) * Size.modulus) by lia.
  by rewrite Z.mod_add.
Qed.

(** X15. The message sizes the reporter stores account for the whole
    message of the round: at the end of [MAIN] the sizes stored for the
    five strategies add up, in [size_t] arithmetic, to the growth of the
    outgoing message since the reporting began, and each of them is a
    [size_t]. *)
Theorem main_message_accounting (nd : node) :
  is_Some (main_generation nd) →
  ∃ nd', main nd = Some (tt, nd') ∧
    Size.wrap (msg_size (storage nd') Oracle + msg_size (storage nd') Baseline +
               msg_size (storage nd') KnowledgeFree +
               msg_size (storage nd') Replicated +
               msg_size (storage nd') Fastest) =
    Size.sub (cur_msg_size nd') (cur_msg_size (exported RectangleWalk nd)) ∧
    ∀ F, 0 ≤ msg_size (storage nd') F < Size.modulus.
Proof.
  intros Hgen.
  destruct (main_trace nd Hgen) as (n1 & n2 & n3 & n4 & n5 & R1 & R2 & R3 & R4 & R5 & Hmain).
  destruct (main_trace_final nd n1 n2 n3 n4 n5 R1 R2 R3 R4 R5)
    as (HO & HB & HK & HR).
  unfold report_of in *.
  injection HO as _ _ HO. injection HB as _ _ HB.
  injection HK as _ _ HK. injection HR as _ _ HR.
  pose proof R1 as (_ & _ & _ & _ & M1 & _). pose proof R2 as (_ & _ & _ & _ & M2 & _).
  pose proof R3 as (_ & _ & _ & _ & M3 & _). pose proof R4 as (_ & _ & _ & _ & M4 & _).
  pose proof R5 as (_ & _ & _ & _ & M5 & _).
  eexists. split; [exact Hmain|]. cbn.
  rewrite HO, HB, HK, HR, M1, M2, M3, M4, M5. split.
  - apply wrap_telescope.
  - intros F. destruct F; rewrite ?HO, ?HB, ?HK, ?HR, ?M1, ?M2, ?M3, ?M4, ?M5;
      apply wrap_range.
Qed.

(** ** Where [MAIN] and the replicated strategy are undefined *)

Lemma div_by_zero_special (x : real_t) (q : Qc) :
  Real.div x (Fin 0%Qc) ≠ Fin q.
Proof.
  destruct x; unfold Real.div; rewrite ?qlt_irrefl; cbn [orb];
    repeat case_match; done.
Qed.

Lemma generation_zero_interval (clock : times_t) :
  generation clock (Fin 0%Qc) = None.
Proof.
  unfold generation, Size.of_real.
  destruct (Real.div clock (Fin 0%Qc)) eqn:E; try done.
  by apply div_by_zero_special in E.
Qed.

Lemma generation_nan_interval (clock : times_t) : generation clock NaN = None.
Proof. unfold generation. by destruct clock. Qed.

Lemma replica_interval_zero (s : Qc) (replicas : size_t) :
  (0 < s)%Qc →
  somewhere.replica_interval 0 (Fin s) replicas = Fin 0%Qc ∨
  somewhere.replica_interval 0 (Fin s) replicas = NaN.
Proof.
  intros Hs. unfold somewhere.replica_interval, Real.of_Z.
  rewrite real_div_pos by done.
  change (Q2Qc (inject_Z 0)) with 0%Qc. unfold Qcdiv at 1.
  rewrite Qcmult_0_l. unfold Size.to_real, Real.of_Z, Real.div.
  rewrite qlt_irrefl. unfold Qcdiv. rewrite Qcmult_0_l.
  case_match; auto.
Qed.

Lemma generation_zero_diameter (clock : times_t) (s : Qc) (replicas : size_t) :
  (0 < s)%Qc →
  generation clock (somewhere.replica_interval 0 (Fin s) replicas) = None.
Proof.
  intros Hs. destruct (replica_interval_zero s replicas Hs) as [-> | ->].
  - apply generation_zero_interval.
  - apply generation_nan_interval.
Qed.

(** X16. With the diameter 0 the interval of the replicated strategy is
    zero (or 0/0 for a single replica), the clock over it is no number a
    [size_t] can hold, and the conversion, and so the strategy, is
    undefined, at every clock and for every number of replicas. *)
Theorem replicated_zero_diameter (f : bool) (s : Qc) (replicas : size_t)
    (nd : node) :
  (0 < s)%Qc →
  somewhere.replicated f 0 (Fin s) replicas nd = None.
Proof.
  intros Hs. unfold somewhere.replicated, mbind, M_bind, get.
  apply replicate_undefined. by apply generation_zero_diameter.
Qed.


(** ** Merged entries, and what the fastest strategy sends *)

Lemma tuple_max_ge_r (a b : entry) : tuple_lt (tuple_max a b) b = false.
Proof.
  unfold tuple_max, std_max. destruct (tuple_lt a b) eqn:E; [|done].
  apply tuple_lt_irrefl.
Qed.

Lemma tuple_max_ge_l (a b : entry) :
  timed_entry a → timed_entry b → tuple_lt (tuple_max a b) a = false.
Proof.
  intros Ha Hb. unfold tuple_max, std_max.
  destruct (tuple_lt a b) eqn:E; [|apply tuple_lt_irrefl].
  destruct (tuple_lt b a) eqn:E'; [|done].
  pose proof (tuple_lt_trans a b a Ha Hb Ha E E') as Haa.
  by rewrite tuple_lt_irrefl in Haa.
Qed.

(** X18. The entry a merge holds for a device is the later of the two
    entries merged, the true one when the timestamps agree: it is one of
    them, and neither of them is greater. *)
Theorem netstate_max_upper_bound (x y : netstate.t) (id : device_t) :
  netstate.timed x → netstate.timed y →
  let e := netstate.lookup (netstate.max x y) id in
  (e = netstate.lookup x id ∨ e = netstate.lookup y id) ∧
  tuple_lt e (netstate.lookup x id) = false ∧
  tuple_lt e (netstate.lookup y id) = false.
Proof.
  intros Hx Hy e. unfold e. rewrite netstate_lookup_max. split_and!.
  - apply tuple_max_cases.
  - apply tuple_max_ge_l; by apply timed_self.
  - apply tuple_max_ge_r.
Qed.

(** X19. The fastest strategy keeps timestamps clean: when the netstates
    received hold no NaN timestamp and the current time is not NaN, the
    netstate it sends holds none either. *)
Theorem fastest_keeps_times (f : bool) (diameter : hops_t) (infospeed : real_t)
    (nd : node) :
  let n := nbr_netstate (ext nd) netstate.new in
  Forall (λ s, netstate.timed s) (fst n :: snd n) →
  Real.is_nan (current_time nd) = false →
  ∃ r s, somewhere.fastest f diameter infospeed nd =
           Some (r, exported (NbrNetstate s) nd) ∧
         netstate.timed s ∧
         netstate.lookup s (uid nd) = (current_time nd, f).
Proof.
  intros n Hall Hnow. apply Forall_cons_iff in Hall as [H0 Hall].
  eexists _, _. split; [apply fastest_run|]. split.
  - apply netstate_timed_update; [done|].
    unfold fold_hood. by apply fold_left_max_timed.
  - rewrite netstate_lookup_update. by case_decide.
Qed.

(** ** Degenerate windows of the fastest strategy *)

Lemma netstate_value_nan (s : netstate.t) : netstate.value s NaN = false.
Proof.
  apply not_true_iff_false. rewrite netstate_value_spec.
  intros (e & _ & Hgt & _). unfold Real.gt in Hgt. simpl in Hgt. done.
Qed.

(** X20. Parameters that are zero are not refused but change what the
    fastest strategy answers.  With diameter 0 and information speed 0 the
    threshold is NaN and the answer is false, even on a triggered device.
    With diameter 0 and a positive speed the threshold is the current
    time, so the device's own entry never counts: an untriggered or
    triggered device answers false unless a received netstate holds a true
    value with a timestamp after the current time. *)
Theorem fastest_zero_diameter (f : bool) (nd : node) :
  result (somewhere.fastest f 0 (Fin 0%Qc) nd) = Some false ∧
  (∀ s c : Qc, (0 < s)%Qc → current_time nd = Fin c →
     somewhere.window (current_time nd) 0 (Fin s) = Fin c ∧
     ((∀ x, x ∈ fst (nbr_netstate (ext nd) netstate.new)
              :: snd (nbr_netstate (ext nd) netstate.new) →
            netstate.value x (Fin c) = false) →
      result (somewhere.fastest f 0 (Fin s) nd) = Some false)).
Proof.
  split.
  - rewrite fastest_run. simpl. f_equal.
    assert (somewhere.window (current_time nd) 0 (Fin 0%Qc) = NaN) as ->.
    { unfold somewhere.window, Real.of_Z. change (Q2Qc (inject_Z 0)) with 0%Qc.
      unfold Real.div. rewrite qlt_irrefl. simpl. by destruct (current_time nd). }
    apply netstate_value_nan.
  - intros s c Hs Hc.
    assert (somewhere.window (current_time nd) 0 (Fin s) = Fin c) as Hw.
    { rewrite Hc, window_finite by done. f_equal.
      change (Q2Qc (inject_Z 0)) with 0%Qc. unfold Qcdiv.
      rewrite Qcmult_0_l. ring. }
    split; [done|]. intros Hquiet.
    rewrite fastest_run. simpl. rewrite Hw. f_equal.
    apply not_true_iff_false. rewrite netstate_value_spec.
    intros (e & He & Hgt & Hv).
    apply get_vals_update in He as [->|He].
    + simpl in Hgt. rewrite Hc in Hgt. unfold Real.gt in Hgt. simpl in Hgt.
      by rewrite qlt_irrefl in Hgt.
    + apply get_vals_fold_max in He as (x & Hx & He).
      specialize (Hquiet x Hx). apply not_true_iff_false in Hquiet.
      apply Hquiet, netstate_value_spec. by exists e.
Qed.

(** ** The further properties at sample inputs *)

Lemma fold_hood_max_permutation_witness :
  fold_hood netstate.max sample_x [sample_y; sample_z] =
  fold_hood netstate.max sample_y [sample_x; sample_z].
Proof.
  assert (Forall (λ s, netstate.timed s) [sample_x; sample_y; sample_z]) as Hall
    by (repeat constructor; vm_compute; exact I).
  assert ([sample_x; sample_y; sample_z] ≡ₚ [sample_y; sample_x; sample_z])
    as Hperm by apply perm_swap.
  exact (fold_hood_max_permutation sample_x sample_y [sample_y; sample_z]
                                   [sample_x; sample_z] Hall Hperm).
Defined.


Lemma fastest_quiet_witness :
  result (somewhere.fastest false 10 (Real.of_Z 70) elected_node) = Some false.
Proof.
  apply (fastest_quiet 10 (Real.of_Z 70) elected_node).
  intros s Hs. apply list_elem_of_singleton in Hs. rewrite Hs.
  apply netstate_value_new.
Defined.

Lemma diameter_monotone_witness :
  10 ≤ 12 ∧ result (somewhere.baseline false 10 lagging_node) = Some true ∧
  result (somewhere.baseline false 12 lagging_node) = Some true.
Proof.
  assert (10 ≤ 12) as H1 by lia.
  assert (result (somewhere.baseline false 10 lagging_node) = Some true) as H2
    by reflexivity.
  split; [exact H1|]. split; [exact H2|].
  exact (proj1 (diameter_monotone false 10 12 lagging_node H1) H2).
Defined.

Lemma replicate_reports_visible_witness :
  ∃ g, g ≤ 10 ∧ (g = 10 ∨ g ∈ [10; 8; 6]) ∧
       result (replicate (λ k, k =? 6) 3 (Fin (Q2Qc (1 # 14))) lagging_node) =
         Some (at_key [(10, false); (8, false); (6, true)] g).
Proof.
  assert (generation (shared_clock (ext lagging_node)) (Fin (Q2Qc (1 # 14))) =
          Some 10) as Hgen by reflexivity.
  destruct (replicate_reports_visible (λ k, k =? 6) 3 (Fin (Q2Qc (1 # 14)))
                                      lagging_node 10 Hgen)
    as (g & Hle & Hvis & Hres & _).
  exists g. split; [exact Hle|]. split; [exact Hvis | exact Hres].
Defined.


Lemma main_display_witness :
  is_Some (main_generation lagging_node) ∧
  ∃ nd', main lagging_node = Some (tt, nd') ∧
         value (storage nd') Oracle = false ∧
         node_size (storage nd') = 10 ∧
         node_color (storage nd') = RED ∧
         node_shape (storage nd') = star.
Proof.
  assert (is_Some (main_generation lagging_node)) as Hgen
    by (exists 10; reflexivity).
  split; [exact Hgen|].
  destruct (main_display lagging_node Hgen)
    as (nd' & Hmain & Htruth & _ & Hsize & Hcolor & Hshape).
  exists nd'. split; [exact Hmain|].
  assert (Some (tt, nd') = main lagging_node) as Heq by (symmetry; exact Hmain).
  vm_compute in Heq. injection Heq as ->.
  repeat split.
Defined.

Lemma main_errors_witness :
  is_Some (main_generation lagging_node) ∧
  ∃ nd', main lagging_node = Some (tt, nd') ∧
         (error (storage nd') Fastest = true ↔
          value (storage nd') Fastest ≠ value (storage nd') Oracle).
Proof.
  assert (is_Some (main_generation lagging_node)) as Hgen
    by (exists 10; reflexivity).
  split; [exact Hgen|].
  destruct (main_errors lagging_node Hgen) as (nd' & Hmain & Herr).
  exists nd'. split; [exact Hmain | exact (Herr Fastest)].
Defined.

Lemma main_message_accounting_witness :
  is_Some (main_generation lagging_node) ∧
  ∃ nd', main lagging_node = Some (tt, nd') ∧
         msg_size (storage nd') Oracle + msg_size (storage nd') Baseline +
         msg_size (storage nd') KnowledgeFree +
         msg_size (storage nd') Replicated +
         msg_size (storage nd') Fastest = 20 ∧
         cur_msg_size nd' = 24.
Proof.
  assert (is_Some (main_generation lagging_node)) as Hgen
    by (exists 10; reflexivity).
  split; [exact Hgen|].
  destruct (main_message_accounting lagging_node Hgen) as (nd' & Hmain & _ & _).
  exists nd'. split; [exact Hmain|].
  assert (Some (tt, nd') = main lagging_node) as Heq by (symmetry; exact Hmain).
  vm_compute in Heq. injection Heq as ->.
  split; reflexivity.
Defined.

Lemma replicated_zero_diameter_witness :
  somewhere.replicated true 0 (Fin (Q2Qc (70 # 1))) 3 lagging_node = None.
Proof.
  assert (0 < Q2Qc (70 # 1))%Qc as H by reflexivity.
  exact (replicated_zero_diameter true (Q2Qc (70 # 1)) 3 lagging_node H).
Defined.

Lemma netstate_max_upper_bound_witness :
  netstate.lookup (netstate.max sample_x sample_y) 1%N =
    (Fin (Q2Qc (3 # 1)), true) ∧
  tuple_lt (netstate.lookup (netstate.max sample_x sample_y) 1%N)
           (netstate.lookup sample_x 1%N) = false ∧
  tuple_lt (netstate.lookup (netstate.max sample_x sample_y) 1%N)
           (netstate.lookup sample_y 1%N) = false.
Proof.
  assert (netstate.timed sample_x) as Hx by (vm_compute; exact I).
  assert (netstate.timed sample_y) as Hy by (vm_compute; exact I).
  split; [reflexivity|].
  exact (proj2 (netstate_max_upper_bound sample_x sample_y 1%N Hx Hy)).
Defined.

Lemma fastest_keeps_times_witness :
  ∃ r s, somewhere.fastest false 10 (Real.of_Z 70) lagging_node =
           Some (r, exported (NbrNetstate s) lagging_node) ∧
         netstate.timed s ∧
         netstate.lookup s 0%N = (Fin (Q2Qc (3 # 1)), false).
Proof.
  apply (fastest_keeps_times false 10 (Real.of_Z 70) lagging_node).
  - repeat constructor; vm_compute; exact I.
  - reflexivity.
Defined.
